(** * Two-phase commit over single-document updates

    A shallow embedding of [towPhaseComments.js]: the four phase functions
    ([startTransaction], [applyTransaction], [completeTransaction],
    [cancelTransaction]) and the high-level API built on them
    ([executeTransfer], [executeExistingTransaction],
    [recoverStuckTransactions], [getAccountBalance]).

    The JavaScript functions are [async] functions over two Mongoose models.
    They are embedded as state-passing computations over a [World] that holds
    the two collections, the clock, the console and a schedule of store
    failures; an [await]ed call either returns or throws an [Error] with a
    message.  Executions are sequential: one call runs to completion before the
    next begins.  The clock stands still during a call: the dates written by
    [$currentDate] within one call are all the date the call started at. *)

From stdpp Require Import gmap strings list fin_maps.
From Stdlib Require Import ZArith Lia.

Local Open Scope string_scope.
Local Open Scope Z_scope.

(** ** Documents *)

(** MongoDB [ObjectId]s.  An [ObjectId] is never falsy in JavaScript, so a
    missing argument ([undefined], [null], the empty string) is [None] in the
    argument types below. *)
Abbreviation ObjectId := positive (only parsing).

(** The [enum] of the [state] path of the transaction schema. *)
Inductive TxState :=
  | initial | pending | applied | done | canceling | canceled.

Global Instance TxState_eq_dec : EqDecision TxState.
Proof. solve_decision. Defined.

(** An account document.  [firstName] and [lastName] are never read or written
    by the protocol and are left out.  [balance] is a JavaScript [Number]; the
    amounts are taken to be integers. [pendingTransactions] is an array. *)
Record Account := mkAccount {
  balance : Z;
  pendingTransactions : list ObjectId
}.

Global Instance Account_eq_dec : EqDecision Account.
Proof. solve_decision. Defined.

(** A transaction document, without its [_id] (the key of the collection): a
    document found under [transactionId] has that [_id], so the functions
    below write [transactionId] where the source reads [transaction._id].
    [lastModified] is a date in milliseconds. *)
Record Transaction := mkTransaction {
  source : ObjectId;
  destination : ObjectId;
  value : Z;
  state : TxState;
  lastModified : Z
}.

Global Instance Transaction_eq_dec : EqDecision Transaction.
Proof. solve_decision. Defined.

(** ** The world an [async] function runs in *)

Record World := mkWorld {
  accounts : gmap positive Account;          (* the Account collection *)
  transactions : gmap positive Transaction;  (* the Transactions collection *)
  clock : Z;                                 (* Date.now(), in milliseconds *)
  faults : list (option string);             (* one entry per store call still
                                                to come: [Some m] makes that
                                                call reject with message [m] *)
  console : list string                      (* lines of console.error *)
}.

Definition setAccounts (a : gmap positive Account) (w : World) : World :=
  mkWorld a (transactions w) (clock w) (faults w) (console w).
Definition setTransactions (t : gmap positive Transaction) (w : World) : World :=
  mkWorld (accounts w) t (clock w) (faults w) (console w).
Definition setFaults (f : list (option string)) (w : World) : World :=
  mkWorld (accounts w) (transactions w) (clock w) f (console w).
Definition setConsole (c : list string) (w : World) : World :=
  mkWorld (accounts w) (transactions w) (clock w) (faults w) c.

(** How an awaited call completes. *)
Inductive Completion (A : Type) :=
  | Return (a : A)
  | Throw (message : string).
Arguments Return {A} a.
Arguments Throw {A} message.

Definition Async (A : Type) : Type := World → Completion A * World.

Definition ret {A} (a : A) : Async A := λ w, (Return a, w).
Definition throw {A} (message : string) : Async A := λ w, (Throw message, w).
Definition bind {A B} (c : Async A) (k : A → Async B) : Async B := λ w,
  match c w with
  | (Return a, w') => k a w'
  | (Throw e, w') => (Throw e, w')
  end.
(** [try { c } catch (error) { h error.message }] *)
Definition tryCatch {A} (c : Async A) (h : string → Async A) : Async A := λ w,
  match c w with
  | (Return a, w') => (Return a, w')
  | (Throw e, w') => h e w'
  end.

Global Instance Async_ret : MRet Async := @ret.
Global Instance Async_bind : MBind Async := λ A B k c, bind c k.

(** [console.error(label, error)]: the console keeps, for each call, the label
    and the message of the error it was given.  How Node renders the [Error]
    object (its name, its stack) is not modelled. *)
Definition console_error (label message : string) : Async unit := λ w,
  (Return (), setConsole (console w ++ [label +:+ " " +:+ message]) w).

(** [Date.now()]: the time the world shows.  No call advances it; a later
    moment is a world with another [clock]. *)
Definition Date_now : Async Z := λ w, (Return (clock w), w).

(** ** The store *)

(** Every call to the store takes the next entry of the failure schedule: the
    call rejects without effect when the entry is [Some m], and runs otherwise
    (also when the schedule is exhausted). *)
Definition dbCall {A} (op : World → A * World) : Async A := λ w,
  let w1 := setFaults (tail (faults w)) w in
  match head (faults w) with
  | Some (Some e) => (Throw e, w1)
  | _ => let '(a, w') := op w1 in (Return a, w')
  end.

(** [{ $set: { state: st }, $currentDate: { lastModified: true } }] *)
Definition setState (st : TxState) (now : Z) (tx : Transaction) : Transaction :=
  mkTransaction (source tx) (destination tx) (value tx) st now.

Module TransactionModel.

(** [TransactionModel.create({source, destination, value, state: "initial"})];
    the generated [_id] is an id that no document of the collection has,
    [lastModified] takes its schema default [Date.now]. *)
Definition create (src dst : ObjectId) (v : Z) : Async (ObjectId * Transaction) :=
  dbCall (λ w,
    let id := fresh (dom (transactions w)) in
    let tx := mkTransaction src dst v initial (clock w) in
    ((id, tx), setTransactions (<[id := tx]> (transactions w)) w)).

(** [TransactionModel.findOne({ _id: id })] *)
Definition findOne (id : ObjectId) : Async (option Transaction) :=
  dbCall (λ w, (transactions w !! id, w)).

(** [TransactionModel.findOneAndUpdate({ _id: id, state: expected },
      { $set: { state: st }, $currentDate: { lastModified: true } },
      { new: true })] *)
Definition findOneAndUpdate (id : ObjectId) (expected st : TxState)
  : Async (option Transaction) :=
  dbCall (λ w,
    match transactions w !! id with
    | Some tx =>
        if decide (state tx = expected) then
          let tx' := setState st (clock w) tx in
          (Some tx', setTransactions (<[id := tx']> (transactions w)) w)
        else (None, w)
    | None => (None, w)
    end).

(** [TransactionModel.updateOne({ _id: id },
      { $set: { state: st }, $currentDate: { lastModified: true } })] *)
Definition updateOne (id : ObjectId) (st : TxState) : Async unit :=
  dbCall (λ w,
    match transactions w !! id with
    | Some tx =>
        ((), setTransactions (<[id := setState st (clock w) tx]> (transactions w)) w)
    | None => ((), w)
    end).

(** [TransactionModel.find(filter)]: the documents that match, each once. *)
Definition find (filter : ObjectId → Transaction → bool)
  : Async (list (ObjectId * Transaction)) :=
  dbCall (λ w,
    (List.filter (λ d, filter d.1 d.2) (map_to_list (transactions w)), w)).

End TransactionModel.

(** [$addToSet], [$pull] and [$inc] on an account document. *)
Definition addToSet (id : ObjectId) (a : Account) : Account :=
  mkAccount (balance a)
    (if bool_decide (id ∈ pendingTransactions a) then pendingTransactions a
     else pendingTransactions a ++ [id]).
Definition pull (id : ObjectId) (a : Account) : Account :=
  mkAccount (balance a)
    (List.filter (λ x, negb (bool_decide (x = id))) (pendingTransactions a)).
Definition inc (d : Z) (a : Account) : Account :=
  mkAccount (balance a + d) (pendingTransactions a).

(** The effect of [updateOne] on the collection: the document with this [_id]
    is replaced when it exists and matches the rest of the filter. *)
Definition updateAccount (id : ObjectId) (cond : Account → bool)
    (upd : Account → Account) (m : gmap positive Account) : gmap positive Account :=
  match m !! id with
  | Some a => if cond a then <[id := upd a]> m else m
  | None => m
  end.

(** [modifiedCount]: 1 when a document matched and the update changed it
    (an update that leaves the document as it is counts 0). *)
Definition modifiedCount (id : ObjectId) (cond : Account → bool)
    (upd : Account → Account) (m : gmap positive Account) : Z :=
  match m !! id with
  | Some a => if cond a then (if decide (upd a = a) then 0 else 1) else 0
  | None => 0
  end.

Module AccountModel.

(** [AccountModel.updateOne({ _id: id, ...cond }, upd)], returning
    [modifiedCount]. *)
Definition updateOne (id : ObjectId) (cond : Account → bool)
    (upd : Account → Account) : Async Z :=
  dbCall (λ w,
    (modifiedCount id cond upd (accounts w),
     setAccounts (updateAccount id cond upd (accounts w)) w)).

(** [AccountModel.findById(id)] *)
Definition findById (id : ObjectId) : Async (option Account) :=
  dbCall (λ w, (accounts w !! id, w)).

End AccountModel.

(** ** Core two-phase commit functions *)

(** Phase 1: initialize the transaction and lock the accounts. *)
Definition startTransaction (transactionId : ObjectId) : Async Transaction :=
  transaction ← TransactionModel.findOneAndUpdate transactionId initial pending;
  match transaction with
  | None => throw "Transaction not found or already started"
  | Some transaction =>
      AccountModel.updateOne (source transaction) (λ _, true)
        (addToSet transactionId);;
      AccountModel.updateOne (destination transaction) (λ _, true)
        (addToSet transactionId);;
      mret transaction
  end.

(** Phase 2: apply the transaction (transfer the funds). *)
Definition applyTransaction (transactionId : ObjectId) : Async Transaction :=
  transaction ← TransactionModel.findOne transactionId;
  match transaction with
  | None => throw "Transaction not in pending state"
  | Some transaction =>
      if negb (bool_decide (state transaction = pending))
      then throw "Transaction not in pending state"
      else
        sourceUpdate ← AccountModel.updateOne (source transaction)
          (λ a, bool_decide (transactionId ∈ pendingTransactions a)
                && bool_decide (value transaction ≤ balance a))
          (inc (- value transaction));
        if bool_decide (sourceUpdate = 0)
        then throw "Insufficient balance or source account not found"
        else
          AccountModel.updateOne (destination transaction)
            (λ a, bool_decide (transactionId ∈ pendingTransactions a))
            (inc (value transaction));;
          TransactionModel.updateOne transactionId applied;;
          mret transaction
  end.

(** Phase 3: complete the transaction and unlock the accounts. *)
Definition completeTransaction (transactionId : ObjectId) : Async Transaction :=
  transaction ← TransactionModel.findOne transactionId;
  match transaction with
  | None => throw "Transaction not in applied state"
  | Some transaction =>
      if negb (bool_decide (state transaction = applied))
      then throw "Transaction not in applied state"
      else
        AccountModel.updateOne (source transaction) (λ _, true)
          (pull transactionId);;
        AccountModel.updateOne (destination transaction) (λ _, true)
          (pull transactionId);;
        TransactionModel.updateOne transactionId done;;
        mret transaction
  end.

(** Rollback: cancel and reverse a transaction. *)
Definition cancelTransaction (transactionId : ObjectId) : Async Transaction :=
  transaction ← TransactionModel.findOne transactionId;
  match transaction with
  | None => throw "Transaction not found"
  | Some transaction =>
      TransactionModel.updateOne transactionId canceling;;
      (if bool_decide (state transaction = applied)
       then
         AccountModel.updateOne (source transaction) (λ _, true)
           (inc (value transaction));;
         AccountModel.updateOne (destination transaction) (λ _, true)
           (inc (- value transaction));;
         mret ()
       else mret ());;
      AccountModel.updateOne (source transaction) (λ _, true)
        (pull transactionId);;
      AccountModel.updateOne (destination transaction) (λ _, true)
        (pull transactionId);;
      TransactionModel.updateOne transactionId canceled;;
      mret transaction
  end.

(** ** High-level API *)

Record TransferResult := mkTransferResult {
  success : bool;
  transactionId : ObjectId;
  message : string
}.

(** The three phases in sequence, as in the [try] blocks. *)
Definition runPhases (transactionId : ObjectId) : Async unit :=
  startTransaction transactionId;;
  applyTransaction transactionId;;
  completeTransaction transactionId;;
  mret ().

(** The [catch] blocks: roll back, log a failure of the rollback, rethrow the
    error of the [try] block under [label]. *)
Definition rollback {A} (label : string) (transactionId : ObjectId)
    (error : string) : Async A :=
  tryCatch (cancelTransaction transactionId;; mret ())
           (λ rollbackError, console_error "Rollback failed:" rollbackError);;
  throw (label +:+ error).

Definition executeTransfer (sourceId destId : option ObjectId)
    (amount : option Z) : Async TransferResult :=
  match sourceId, destId, amount with
  | Some sourceId, Some destId, Some amount =>
      if bool_decide (amount = 0)
      then throw "sourceId, destId, and amount are required"
      else if bool_decide (amount ≤ 0)
      then throw "Amount must be positive"
      else if bool_decide (sourceId = destId)
      then throw "Source and destination accounts cannot be the same"
      else
        transaction ← TransactionModel.create sourceId destId amount;
        tryCatch
          (runPhases transaction.1;;
           mret (mkTransferResult true transaction.1
                   "Transfer completed successfully"))
          (rollback "Transfer failed: " transaction.1)
  | _, _, _ => throw "sourceId, destId, and amount are required"
  end.

Definition executeExistingTransaction (transactionId : ObjectId)
    : Async TransferResult :=
  tryCatch
    (runPhases transactionId;;
     mret (mkTransferResult true transactionId
             "Transaction completed successfully"))
    (rollback "Transaction failed: " transactionId).

Record RecoveryDetail := mkRecoveryDetail {
  detailTransactionId : ObjectId;
  detailSuccess : bool;
  detailError : option string
}.

Record RecoveryResult := mkRecoveryResult {
  recovered : nat;
  failed : nat;
  details : list RecoveryDetail
}.

(** The query of the sweep: [state] in [pending], [applied] and
    [lastModified] < [cutoff]. *)
Definition isStuck (cutoff : Z) (tx : Transaction) : bool :=
  (bool_decide (state tx = pending) || bool_decide (state tx = applied))
  && bool_decide (lastModified tx < cutoff).

(** The [for ... of] loop of the sweep, with [results] as accumulator. *)
Fixpoint recoverLoop (stuckTransactions : list (ObjectId * Transaction))
    (results : list RecoveryDetail) : Async (list RecoveryDetail) :=
  match stuckTransactions with
  | [] => mret results
  | transaction :: rest =>
      r ← tryCatch
            (cancelTransaction transaction.1;;
             mret (mkRecoveryDetail transaction.1 true None))
            (λ error, mret (mkRecoveryDetail transaction.1 false (Some error)));
      recoverLoop rest (results ++ [r])
  end.

Definition recoverStuckTransactions (timeoutMinutes : option Z)
    : Async RecoveryResult :=
  let timeout := default 5 timeoutMinutes * 60 * 1000 in
  now ← Date_now;
  let cutoff := now - timeout in
  stuckTransactions ← TransactionModel.find (λ _ tx, isStuck cutoff tx);
  results ← recoverLoop stuckTransactions [];
  mret (mkRecoveryResult
          (length (List.filter detailSuccess results))
          (length (List.filter (λ r, negb (detailSuccess r)) results))
          results).

Record BalanceInfo := mkBalanceInfo {
  accountId : ObjectId;
  infoBalance : Z;
  pendingDebit : Z;
  pendingCredit : Z;
  availableBalance : Z;
  projectedBalance : Z
}.

(** The [for ... of] loop of [getAccountBalance] over the found documents,
    with the pair [(pendingDebit, pendingCredit)] as accumulator. *)
Fixpoint sumPending (accountId : ObjectId)
    (pendingTransactions : list (ObjectId * Transaction)) (acc : Z * Z) : Z * Z :=
  match pendingTransactions with
  | [] => acc
  | tx :: rest =>
      let acc1 :=
        if bool_decide (source tx.2 = accountId)
        then (acc.1 + value tx.2, acc.2) else acc in
      let acc2 :=
        if bool_decide (destination tx.2 = accountId)
        then (acc1.1, acc1.2 + value tx.2) else acc1 in
      sumPending accountId rest acc2
  end.

Definition getAccountBalance (accountId : ObjectId) : Async BalanceInfo :=
  account ← AccountModel.findById accountId;
  match account with
  | None => throw "Account not found"
  | Some account =>
      pendingTransactions ← TransactionModel.find (λ id tx,
        bool_decide (id ∈ pendingTransactions account)
        && (bool_decide (state tx = pending) || bool_decide (state tx = applied)));
      let '(pendingDebit, pendingCredit) :=
        sumPending accountId pendingTransactions (0, 0) in
      mret (mkBalanceInfo accountId (balance account) pendingDebit pendingCredit
              (balance account - pendingDebit)
              (balance account - pendingDebit + pendingCredit))
  end.

(** * Vocabulary of the statements *)

(** ** Observations on a world *)

(** The balance and pending list of an account, the state of a transaction. *)
Definition balanceOf (w : World) (id : ObjectId) : option Z :=
  balance <$> accounts w !! id.
Definition pendingOf (w : World) (id : ObjectId) : option (list ObjectId) :=
  pendingTransactions <$> accounts w !! id.
Definition stateOf (w : World) (id : ObjectId) : option TxState :=
  state <$> transactions w !! id.

(** No store call fails from here on. *)
Definition calm (w : World) : Prop := faults w = [].

(** The next store call does not fail. *)
Definition nextCallRuns (w : World) : Prop :=
  ∀ e, head (faults w) ≠ Some (Some e).

(** The world after a store call has taken its entry of the schedule. *)
Definition tick (w : World) : World := setFaults (tail (faults w)) w.

(** The components of a world that a phase leaves alone. *)
Record sameAmbient (w w' : World) : Prop := {
  same_clock : clock w' = clock w;
  same_console : console w' = console w
}.

(** ** The error taxonomy, read off the messages the code throws *)

(** The three errors [executeTransfer] throws before it creates a record. *)
Definition ValidationError (m : string) : Prop :=
  m = "sourceId, destId, and amount are required"
  ∨ m = "Amount must be positive"
  ∨ m = "Source and destination accounts cannot be the same".

(** The errors of a phase that does not find the state it expects. *)
Definition StateConflict (m : string) : Prop :=
  m = "Transaction not found or already started"
  ∨ m = "Transaction not in pending state"
  ∨ m = "Transaction not in applied state".

(** The error of Apply when the debit matches no document. *)
Definition InsufficientFunds (m : string) : Prop :=
  m = "Insufficient balance or source account not found".

(** [TransferFailed] wraps the message of the error it was made from. *)
Definition TransferFailed (cause m : string) : Prop :=
  m = "Transfer failed: " +:+ cause.

(** ** What the phases do to the account collection

    The account updates of each phase, in the order the phase makes them. *)

(** Reserve: [$addToSet] on the source, then on the destination. *)
Definition lockAccounts (t : ObjectId) (tx : Transaction)
    (m : gmap positive Account) : gmap positive Account :=
  updateAccount (destination tx) (λ _, true) (addToSet t)
    (updateAccount (source tx) (λ _, true) (addToSet t) m).

(** The filter of Apply's debit: the id is pending on the account and the
    balance covers the amount. *)
Definition debitCond (t : ObjectId) (tx : Transaction) (a : Account) : bool :=
  bool_decide (t ∈ pendingTransactions a) && bool_decide (value tx ≤ balance a).

(** Apply: the conditional debit of the source, then the credit of the
    destination where the id is pending. *)
Definition moveFunds (t : ObjectId) (tx : Transaction)
    (m : gmap positive Account) : gmap positive Account :=
  updateAccount (destination tx)
    (λ a, bool_decide (t ∈ pendingTransactions a)) (inc (value tx))
    (updateAccount (source tx) (debitCond t tx) (inc (- value tx)) m).

(** Finalize and Cancel: [$pull] on the source, then on the destination. *)
Definition unlockAccounts (t : ObjectId) (tx : Transaction)
    (m : gmap positive Account) : gmap positive Account :=
  updateAccount (destination tx) (λ _, true) (pull t)
    (updateAccount (source tx) (λ _, true) (pull t) m).

(** Cancel's reversal: credit the source, then debit the destination. *)
Definition reverseFunds (tx : Transaction)
    (m : gmap positive Account) : gmap positive Account :=
  updateAccount (destination tx) (λ _, true) (inc (- value tx))
    (updateAccount (source tx) (λ _, true) (inc (value tx)) m).

(** What [cancelTransaction] does to the accounts: the reversal when the
    document read at the start was [applied], then the unlocking. *)
Definition cancelAccounts (t : ObjectId) (tx : Transaction)
    (m : gmap positive Account) : gmap positive Account :=
  unlockAccounts t tx
    (if bool_decide (state tx = applied) then reverseFunds tx m else m).

(** The accounts of a transfer after Reserve, Apply and Finalize. *)
Definition accountsAfterPhases (t : ObjectId) (tx : Transaction)
    (m : gmap positive Account) : gmap positive Account :=
  unlockAccounts t tx (moveFunds t tx (lockAccounts t tx m)).

(** The transaction id is in the pending list of account [k], if there is
    such an account: what Reserve establishes for both accounts. *)
Definition reservedAt (t k : ObjectId) (m : gmap positive Account) : Prop :=
  ∀ a, m !! k = Some a → t ∈ pendingTransactions a.

(** ** The orchestration and the sweep *)

(** The world the [catch] block leaves behind: the one after Cancel, with the
    line of [console.error] added when Cancel itself threw. *)
Definition afterRollback (t : ObjectId) (w : World) : World :=
  match cancelTransaction t w with
  | (Return _, w') => w'
  | (Throw e', w') => setConsole (console w' ++ ["Rollback failed: " +:+ e']) w'
  end.

(** The three forward phases. *)
Inductive Phase := Reserve | Apply | Finalize.

Definition runPhase (p : Phase) : ObjectId → Async Transaction :=
  match p with
  | Reserve => startTransaction
  | Apply => applyTransaction
  | Finalize => completeTransaction
  end.

(** Every run of [c] relates the world it starts in to the world it ends in,
    whether it returns or throws. *)
Definition preserves {A} (R : relation World) (c : Async A) : Prop :=
  ∀ w r w', c w = (r, w') → R w w'.

(** Only the transaction document [t] may differ. *)
Definition txFrame (t : ObjectId) : relation World :=
  λ w w', ∀ k, k ≠ t → transactions w' !! k = transactions w !! k.

(** The transaction collection and the clock are the same. *)
Definition sameTransactions : relation World :=
  λ w w', transactions w' = transactions w ∧ clock w' = clock w.

(** The state a forward phase starts from and the state it ends in. *)
Definition phaseFrom (p : Phase) : TxState :=
  match p with Reserve => initial | Apply => pending | Finalize => applied end.
Definition phaseTo (p : Phase) : TxState :=
  match p with Reserve => pending | Apply => applied | Finalize => done end.

(** The transaction collection is as it was, or the document [t] has gone
    from state [from] to state [to]. *)
Definition movesOnly (t : ObjectId) (from to : TxState) : relation World :=
  λ w w',
    transactions w' = transactions w
    ∨ ∃ tx, transactions w !! t = Some tx ∧ state tx = from
            ∧ transactions w' = <[t := setState to (clock w) tx]> (transactions w).

(** The worlds the sweep goes through: Cancel on each id in turn, whatever
    each call returns or throws. *)
Definition cancelEach (ids : list ObjectId) (w : World) : World :=
  foldl (λ w t, (cancelTransaction t w).2) w ids.

(** The transactions the sweep selects: [pending] or [applied], and last
    modified strictly before [cutoff]. *)
Definition stuck (cutoff : Z) (w : World) (t : ObjectId) : Prop :=
  ∃ tx, transactions w !! t = Some tx
        ∧ (state tx = pending ∨ state tx = applied)
        ∧ lastModified tx < cutoff.

(** ** The balance projection, in the specification's words *)

(** The sum of a list of amounts. *)
Definition sumZ (l : list Z) : Z := foldr Z.add 0 l.

(** A transaction that still counts: [pending] or [applied]. *)
Definition inFlight (tx : Transaction) : bool :=
  bool_decide (state tx = pending) || bool_decide (state tx = applied).

(** Following the specification's words: the sum of the amounts of the
    transactions of the account's pending set that are [pending] or [applied]
    and have the account in the given role. *)
Definition pendingSum (role : Transaction → ObjectId) (accountId : ObjectId)
    (account : Account) (w : World) : Z :=
  sumZ ((λ t, match transactions w !! t with
              | Some tx =>
                  if inFlight tx && bool_decide (role tx = accountId)
                  then value tx else 0
              | None => 0
              end) <$> remove_dups (pendingTransactions account)).

(** ** Worlds used as examples *)

(** Two accounts, no transaction. *)
Definition wBank : World :=
  mkWorld {[ 1%positive := mkAccount 2500 []; 2%positive := mkAccount 100 [] ]}
    ∅ 1000 [] [].

(** A transaction of 500 that has been created and not yet reserved. *)
Definition wInitial : World :=
  mkWorld {[ 1%positive := mkAccount 2500 []; 2%positive := mkAccount 100 [] ]}
    {[ 7%positive := mkTransaction 1%positive 2%positive 500 initial 1000 ]}
    2000 [] [].

(** The same transaction after Reserve. *)
Definition wReserved : World :=
  mkWorld {[ 1%positive := mkAccount 2500 [7%positive];
             2%positive := mkAccount 100 [7%positive] ]}
    {[ 7%positive := mkTransaction 1%positive 2%positive 500 pending 1000 ]}
    2000 [] [].

(** The transaction after a Reserve that failed before it locked the
    destination. *)
Definition wHalfReserved : World :=
  mkWorld {[ 1%positive := mkAccount 2500 [7%positive];
             2%positive := mkAccount 100 [] ]}
    {[ 7%positive := mkTransaction 1%positive 2%positive 500 pending 1000 ]}
    2000 [] [].

(** A reserved transaction of 500 on a source that holds 300. *)
Definition wShort : World :=
  mkWorld {[ 1%positive := mkAccount 300 [7%positive];
             2%positive := mkAccount 100 [7%positive] ]}
    {[ 7%positive := mkTransaction 1%positive 2%positive 500 pending 1000 ]}
    2000 [] [].

(** The same transaction after Finalize. *)
Definition wDone : World :=
  mkWorld {[ 1%positive := mkAccount 2000 []; 2%positive := mkAccount 600 [] ]}
    {[ 7%positive := mkTransaction 1%positive 2%positive 500 done 1000 ]}
    2000 [] [].

(** Six store calls run, the seventh fails. *)
Definition wRollbackFails : World :=
  mkWorld {[ 1%positive := mkAccount 2500 []; 2%positive := mkAccount 100 [] ]}
    ∅ 1000 [None; None; None; None; None; None; Some "connection lost"] [].

(** Four transactions, two of them stuck at time 1000000; the tenth store
    call fails. *)
Definition wSweep : World :=
  mkWorld {[ 1%positive := mkAccount 2000 [8%positive];
             2%positive := mkAccount 600 [8%positive] ]}
    {[ 7%positive := mkTransaction 1%positive 2%positive 40 initial 0;
       8%positive := mkTransaction 1%positive 2%positive 500 applied 1000;
       9%positive := mkTransaction 1%positive 2%positive 10 pending 700000;
       10%positive := mkTransaction 2%positive 1%positive 70 pending 1000 ]}
    1000000 [None; None; None; None; None; None; None; None;
             None; Some "write conflict"] [].

(** Account 1 with one pending outgoing transaction of 200, one applied
    incoming transaction of 150, and one transaction that no longer counts. *)
Definition wProjection : World :=
  mkWorld {[ 1%positive := mkAccount 1000 [7%positive; 8%positive; 9%positive];
             2%positive := mkAccount 50 [7%positive; 8%positive] ]}
    {[ 7%positive := mkTransaction 1%positive 2%positive 200 pending 10;
       8%positive := mkTransaction 2%positive 1%positive 150 applied 20;
       9%positive := mkTransaction 1%positive 2%positive 999 canceling 30 ]}
    100 [] [].

(** ** Calls of the exported functions *)

(** A call of one of the eight functions the module exports, with its
    arguments. *)
Inductive Call :=
  | CallStartTransaction (transactionId : ObjectId)
  | CallApplyTransaction (transactionId : ObjectId)
  | CallCompleteTransaction (transactionId : ObjectId)
  | CallCancelTransaction (transactionId : ObjectId)
  | CallExecuteTransfer (sourceId destId : option ObjectId) (amount : option Z)
  | CallExecuteExistingTransaction (transactionId : ObjectId)
  | CallRecoverStuckTransactions (timeoutMinutes : option Z)
  | CallGetAccountBalance (accountId : ObjectId).

(** The world a call leaves, whether it returns or throws. *)
Definition afterCall (c : Call) (w : World) : World :=
  match c with
  | CallStartTransaction t => (startTransaction t w).2
  | CallApplyTransaction t => (applyTransaction t w).2
  | CallCompleteTransaction t => (completeTransaction t w).2
  | CallCancelTransaction t => (cancelTransaction t w).2
  | CallExecuteTransfer s d a => (executeTransfer s d a w).2
  | CallExecuteExistingTransaction t => (executeExistingTransaction t w).2
  | CallRecoverStuckTransactions tm => (recoverStuckTransactions tm w).2
  | CallGetAccountBalance id => (getAccountBalance id w).2
  end.

(** The world after a sequence of calls, one after the other. *)
Definition afterCalls (cs : list Call) (w : World) : World :=
  foldl (λ w c, afterCall c w) w cs.

(** What a relation between worlds must allow to hold across every call: the
    bookkeeping of a store call and of the console, and each kind of write the
    functions make. *)
Class AllowsWrites (R : relation World) := {
  allows_preorder :: PreOrder R;
  allows_tick w : R w (tick w);
  allows_console l w : R w (setConsole l w);
  allows_addToSet id t w :
    R w (setAccounts (updateAccount id (λ _, true) (addToSet t) (accounts w)) w);
  allows_pull id t w :
    R w (setAccounts (updateAccount id (λ _, true) (pull t) (accounts w)) w);
  allows_inc id cond d w :
    R w (setAccounts (updateAccount id cond (inc d) (accounts w)) w);
  allows_setState t tx st w :
    transactions w !! t = Some tx →
    R w (setTransactions (<[t := setState st (clock w) tx]> (transactions w)) w);
  allows_create src dst v w :
    R w (setTransactions
           (<[fresh (dom (transactions w)) := mkTransaction src dst v initial (clock w)]>
              (transactions w)) w)
}.

(** No document is ever deleted, and no call rewrites the source, the
    destination or the value of a transaction. *)
Definition keepsRecords : relation World := λ w w',
  (∀ k a, accounts w !! k = Some a → is_Some (accounts w' !! k))
  ∧ (∀ k tx, transactions w !! k = Some tx →
       ∃ tx', transactions w' !! k = Some tx'
              ∧ source tx' = source tx ∧ destination tx' = destination tx
              ∧ value tx' = value tx).

(** Every pending list is free of duplicates. *)
Definition pendingListsDistinct (w : World) : Prop :=
  ∀ k a, accounts w !! k = Some a → NoDup (pendingTransactions a).

Definition keepsDistinct : relation World := λ w w',
  pendingListsDistinct w → pendingListsDistinct w'.

(** ** What a transfer may touch *)

(** Only the account documents whose id satisfies [S] may differ. *)
Definition accFrame (S : ObjectId → Prop) : relation World :=
  λ w w', ∀ k, ¬ S k → accounts w' !! k = accounts w !! k.

(** The transaction document [t] exists, from [s] to [d]. *)
Definition hasParties (t s d : ObjectId) (w : World) : Prop :=
  ∃ tx, transactions w !! t = Some tx ∧ source tx = s ∧ destination tx = d.

(** Only the transaction document [t] may differ and, when it is a transaction
    from [s] to [d], it stays one and only the accounts [s] and [d] may
    differ. *)
Definition ownOnly (t s d : ObjectId) : relation World :=
  λ w w',
    txFrame t w w'
    ∧ (hasParties t s d w →
       hasParties t s d w' ∧ accFrame (λ k, k = s ∨ k = d) w w').

(** ** Balances and locks *)

(** Every balance is the same. *)
Definition sameBalances : relation World :=
  λ w w', ∀ k, balanceOf w' k = balanceOf w k.

(** A pending list with every occurrence of [t] removed, as [$pull] leaves
    it. *)
Definition without (t : ObjectId) (P : list ObjectId) : list ObjectId :=
  List.filter (λ x, negb (bool_decide (x = t))) P.

(** ** Reads *)

(** The two collections and the console are the same. *)
Definition sameStore : relation World :=
  λ w w',
    accounts w' = accounts w ∧ transactions w' = transactions w
    ∧ console w' = console w.

(** ** More worlds used as examples *)

(** Two accounts; the seventh store call fails. *)
Definition wCreditFails : World :=
  mkWorld {[ 1%positive := mkAccount 2500 []; 2%positive := mkAccount 100 [] ]}
    ∅ 1000 [None; None; None; None; None; None; Some "socket closed"] [].

(** A reserved transaction on a source that holds a second lock. *)
Definition wTwoLocks : World :=
  mkWorld {[ 1%positive := mkAccount 2500 [7%positive; 9%positive];
             2%positive := mkAccount 100 [7%positive] ]}
    {[ 7%positive := mkTransaction 1%positive 2%positive 500 pending 1000 ]}
    2000 [] [].

(** The transaction of 500 after Apply. *)
Definition wApplied : World :=
  mkWorld {[ 1%positive := mkAccount 2000 [7%positive];
             2%positive := mkAccount 600 [7%positive] ]}
    {[ 7%positive := mkTransaction 1%positive 2%positive 500 applied 1000 ]}
    2000 [] [].

(** Four transactions at time 1000000: two of them in flight and older than
    five minutes, one in flight and recent, one not reserved yet; no store
    call fails. *)
Definition wStuck : World :=
  mkWorld {[ 1%positive := mkAccount 2000 [8%positive; 11%positive];
             2%positive := mkAccount 600 [8%positive; 11%positive] ]}
    {[ 7%positive := mkTransaction 1%positive 2%positive 40 initial 0;
       8%positive := mkTransaction 1%positive 2%positive 500 applied 1000;
       10%positive := mkTransaction 2%positive 1%positive 70 pending 1000;
       11%positive := mkTransaction 1%positive 2%positive 30 pending 900000 ]}
    1000000 [] [].

(** A pending transaction that the source account does not list. *)
Definition wHalfLocked : World :=
  mkWorld {[ 1%positive := mkAccount 2500 [];
             2%positive := mkAccount 100 [7%positive] ]}
    {[ 7%positive := mkTransaction 1%positive 2%positive 500 pending 1000 ]}
    2000 [] [].

(** The reserved transaction; the third store call fails. *)
Definition wCancelFails : World :=
  mkWorld {[ 1%positive := mkAccount 2500 [7%positive];
             2%positive := mkAccount 100 [7%positive] ]}
    {[ 7%positive := mkTransaction 1%positive 2%positive 500 pending 1000 ]}
    2000 [None; None; Some "timeout"] [].

(** * Lemmas and theorems *)

(** ** Running computations *)

Lemma bind_run {A B} (c : Async A) (k : A → Async B) w :
  (c ≫= k) w =
  match c w with
  | (Return a, w') => k a w'
  | (Throw e, w') => (Throw e, w')
  end.
Proof. reflexivity. Qed.

Lemma bind_Return {A B} (c : Async A) (k : A → Async B) w a w1 :
  c w = (Return a, w1) → (c ≫= k) w = k a w1.
Proof. intros H. rewrite bind_run, H. reflexivity. Qed.

Lemma bind_Throw {A B} (c : Async A) (k : A → Async B) w e w1 :
  c w = (Throw e, w1) → (c ≫= k) w = (Throw e, w1).
Proof. intros H. rewrite bind_run, H. reflexivity. Qed.

Lemma bind_Return_inv {A B} (c : Async A) (k : A → Async B) w b w' :
  (c ≫= k) w = (Return b, w') →
  ∃ a w1, c w = (Return a, w1) ∧ k a w1 = (Return b, w').
Proof.
  rewrite bind_run. destruct (c w) as [[a|e] w1]; intros H.
  - eauto.
  - discriminate.
Qed.

Lemma mret_run {A} (a : A) w : (mret a : Async A) w = (Return a, w).
Proof. reflexivity. Qed.

Lemma tryCatch_Return {A} (c : Async A) h w a w1 :
  c w = (Return a, w1) → tryCatch c h w = (Return a, w1).
Proof. intros H. unfold tryCatch. rewrite H. reflexivity. Qed.

Lemma tryCatch_Throw {A} (c : Async A) h w e w1 :
  c w = (Throw e, w1) → tryCatch c h w = h e w1.
Proof. intros H. unfold tryCatch. rewrite H. reflexivity. Qed.

Lemma setFaults_calm w : calm w → setFaults (tail (faults w)) w = w.
Proof. unfold calm. destruct w; simpl. intros ->. reflexivity. Qed.

Lemma dbCall_calm {A} (op : World → A * World) w :
  calm w → dbCall op w = (Return (op w).1, (op w).2).
Proof.
  intros H. unfold dbCall. rewrite (setFaults_calm w H).
  rewrite H. simpl. destruct (op w); reflexivity.
Qed.

Lemma dbCall_runs {A} (op : World → A * World) w :
  nextCallRuns w →
  dbCall op w = (Return (op (setFaults (tail (faults w)) w)).1,
                 (op (setFaults (tail (faults w)) w)).2).
Proof.
  intros H. unfold dbCall.
  destruct (head (faults w)) as [[e|]|] eqn:E.
  - exfalso. exact (H e E).
  - destruct (op _); reflexivity.
  - destruct (op _); reflexivity.
Qed.

Lemma dbCall_Return_inv {A} (op : World → A * World) w a w' :
  dbCall op w = (Return a, w') →
  nextCallRuns w ∧ op (setFaults (tail (faults w)) w) = (a, w').
Proof.
  unfold dbCall, nextCallRuns.
  destruct (head (faults w)) as [[e|]|]; [discriminate| |];
    (destruct (op _) as [a0 w0]; intros [= -> ->]; split; [congruence|reflexivity]).
Qed.

Lemma dbCall_Throw_inv {A} (op : World → A * World) w e w' :
  dbCall op w = (Throw e, w') →
  head (faults w) = Some (Some e) ∧ w' = setFaults (tail (faults w)) w.
Proof.
  unfold dbCall.
  destruct (head (faults w)) as [[e0|]|]; [|destruct (op _); discriminate..].
  intros [= -> <-]. split; reflexivity.
Qed.

(** ** The account collection under [updateOne] *)

Lemma lookup_updateAccount id cond upd (m : gmap positive Account) k :
  updateAccount id cond upd m !! k =
  if decide (k = id)
  then (λ a, if cond a then upd a else a) <$> m !! id
  else m !! k.
Proof.
  unfold updateAccount. destruct (decide (k = id)) as [->|Hne].
  - destruct (m !! id) as [a|] eqn:E; simpl; [|exact E].
    destruct (cond a); [apply lookup_insert_eq | exact E].
  - destruct (m !! id) as [a|]; [|reflexivity].
    destruct (cond a); [|reflexivity]. apply lookup_insert_ne. congruence.
Qed.

Lemma elem_of_pull t x a :
  x ∈ pendingTransactions (pull t a) ↔ x ∈ pendingTransactions a ∧ x ≠ t.
Proof.
  unfold pull; simpl.
  rewrite !list_elem_of_In, filter_In, negb_true_iff, bool_decide_eq_false.
  reflexivity.
Qed.

Lemma elem_of_addToSet t x a :
  x ∈ pendingTransactions (addToSet t a) ↔ x ∈ pendingTransactions a ∨ x = t.
Proof.
  unfold addToSet; simpl. case_bool_decide as H.
  - split; [auto|]. intros [?| ->]; assumption.
  - rewrite elem_of_app, list_elem_of_singleton. reflexivity.
Qed.

(** ** Validation in [executeTransfer] *)

(** C9: [executeTransfer] called with a missing [sourceId], [destId] or
    [amount], with [amount ≤ 0], or with [sourceId] equal to [destId], throws
    a validation error and leaves the world as it was: no store call is made,
    so no transaction document is created and no document is modified. *)
Theorem executeTransfer_validation_fails_fast sourceId destId amount w :
  sourceId = None ∨ destId = None ∨ amount = None
  ∨ (∃ a, amount = Some a ∧ a ≤ 0) ∨ sourceId = destId →
  ∃ m, executeTransfer sourceId destId amount w = (Throw m, w)
       ∧ ValidationError m.
Proof.
  unfold executeTransfer, ValidationError, throw.
  destruct sourceId as [s|], destId as [d|], amount as [a|];
    try (intros _; eexists; split; [reflexivity|auto]; fail).
  intros H.
  destruct (bool_decide (a = 0)) eqn:E0; [eexists; split; [reflexivity|auto]|].
  destruct (bool_decide (a ≤ 0)) eqn:E1; [eexists; split; [reflexivity|auto]|].
  destruct (bool_decide (s = d)) eqn:E2; [eexists; split; [reflexivity|auto]|].
  exfalso. apply bool_decide_eq_false in E1, E2.
  destruct H as [H|[H|[H|[(a' & [= <-] & H)|[= H]]]]]; try discriminate; auto.
Qed.

Lemma executeTransfer_validation_fails_fast_witness :
  ∃ m, executeTransfer (Some 1%positive) (Some 2%positive) (Some (-5))
         (mkWorld {[ 1%positive := mkAccount 10 [] ]} ∅ 0 [Some "down"] [])
       = (Throw m, mkWorld {[ 1%positive := mkAccount 10 [] ]} ∅ 0 [Some "down"] [])
       ∧ ValidationError m.
Proof.
  apply (executeTransfer_validation_fails_fast
           (Some 1%positive) (Some 2%positive) (Some (-5))).
  right; right; right; left. exists (-5). split; [reflexivity | lia].
Defined.

(** ** The store calls in a calm world *)

Lemma tick_calm w : calm w → tick w = w.
Proof. apply setFaults_calm. Qed.

Lemma calm_setAccounts a w : calm w → calm (setAccounts a w).
Proof. exact id. Qed.
Lemma calm_setTransactions t w : calm w → calm (setTransactions t w).
Proof. exact id. Qed.
Lemma calm_setConsole c w : calm w → calm (setConsole c w).
Proof. exact id. Qed.
Lemma calm_nextCallRuns w : calm w → nextCallRuns w.
Proof. unfold calm, nextCallRuns. intros -> e. discriminate. Qed.

Create HintDb calm.
#[export] Hint Resolve calm_setAccounts calm_setTransactions calm_setConsole
  calm_nextCallRuns : calm.

Ltac world_simpl :=
  cbn [accounts transactions clock faults console
       setAccounts setTransactions setFaults setConsole tick fst snd] in *.

Section StoreCalls.
Variable w : World.
Hypothesis Hcalm : calm w.

Lemma findOne_calm t :
  TransactionModel.findOne t w = (Return (transactions w !! t), w).
Proof. unfold TransactionModel.findOne. by rewrite dbCall_calm. Qed.

Lemma findOneAndUpdate_calm_hit t tx expected st :
  transactions w !! t = Some tx → state tx = expected →
  TransactionModel.findOneAndUpdate t expected st w =
  (Return (Some (setState st (clock w) tx)),
   setTransactions (<[t := setState st (clock w) tx]> (transactions w)) w).
Proof.
  intros Ht Hs. unfold TransactionModel.findOneAndUpdate.
  rewrite dbCall_calm by done. rewrite Ht, decide_True by done. reflexivity.
Qed.

Lemma findOneAndUpdate_calm_miss t expected st :
  (∀ tx, transactions w !! t = Some tx → state tx ≠ expected) →
  TransactionModel.findOneAndUpdate t expected st w = (Return None, w).
Proof.
  intros Hmiss. unfold TransactionModel.findOneAndUpdate.
  rewrite dbCall_calm by done. destruct (transactions w !! t) as [tx|] eqn:Ht.
  - rewrite decide_False by auto. reflexivity.
  - reflexivity.
Qed.

Lemma Transaction_updateOne_calm t tx st :
  transactions w !! t = Some tx →
  TransactionModel.updateOne t st w =
  (Return (),
   setTransactions (<[t := setState st (clock w) tx]> (transactions w)) w).
Proof.
  intros Ht. unfold TransactionModel.updateOne.
  rewrite dbCall_calm by done. rewrite Ht. reflexivity.
Qed.

Lemma create_calm src dst v :
  TransactionModel.create src dst v w =
  (Return (fresh (dom (transactions w)), mkTransaction src dst v initial (clock w)),
   setTransactions
     (<[fresh (dom (transactions w)) := mkTransaction src dst v initial (clock w)]>
        (transactions w)) w).
Proof. unfold TransactionModel.create. by rewrite dbCall_calm. Qed.

Lemma find_calm filter :
  TransactionModel.find filter w =
  (Return (List.filter (λ d, filter d.1 d.2) (map_to_list (transactions w))), w).
Proof. unfold TransactionModel.find. by rewrite dbCall_calm. Qed.

Lemma Account_updateOne_calm id cond upd :
  AccountModel.updateOne id cond upd w =
  (Return (modifiedCount id cond upd (accounts w)),
   setAccounts (updateAccount id cond upd (accounts w)) w).
Proof. unfold AccountModel.updateOne. by rewrite dbCall_calm. Qed.

Lemma findById_calm id :
  AccountModel.findById id w = (Return (accounts w !! id), w).
Proof. unfold AccountModel.findById. by rewrite dbCall_calm. Qed.

End StoreCalls.

(** One step of a calm run: the store call at the head of a sequence. *)
Ltac calm_step :=
  rewrite bind_run;
  first
    [ rewrite findOne_calm by auto with calm
    | rewrite Account_updateOne_calm by auto with calm
    | rewrite create_calm by auto with calm
    | rewrite find_calm by auto with calm
    | rewrite findById_calm by auto with calm
    | erewrite Transaction_updateOne_calm by (auto with calm || (world_simpl; eauto))
    | erewrite findOneAndUpdate_calm_hit by (auto with calm || (world_simpl; eauto)) ];
  cbv beta iota; world_simpl.

(** ** The phases in a calm world *)

Lemma startTransaction_calm t tx w :
  calm w → transactions w !! t = Some tx → state tx = initial →
  startTransaction t w =
  (Return (setState pending (clock w) tx),
   setAccounts (lockAccounts t tx (accounts w))
     (setTransactions (<[t := setState pending (clock w) tx]> (transactions w)) w)).
Proof.
  intros Hc Ht Hs. unfold startTransaction.
  calm_step. do 2 calm_step. reflexivity.
Qed.

Lemma modifiedCount_0_updateAccount id cond upd (m : gmap positive Account) :
  modifiedCount id cond upd m = 0 → updateAccount id cond upd m = m.
Proof.
  unfold modifiedCount, updateAccount.
  destruct (m !! id) as [a|] eqn:E; [|reflexivity].
  destruct (cond a); [|reflexivity].
  destruct (decide (upd a = a)) as [->|]; [|discriminate].
  intros _. by apply insert_id.
Qed.

Lemma modifiedCount_debit_pos t tx (m : gmap positive Account) :
  modifiedCount (source tx) (debitCond t tx) (inc (- value tx)) m ≠ 0 ↔
  ∃ a, m !! source tx = Some a ∧ t ∈ pendingTransactions a
       ∧ value tx ≤ balance a ∧ value tx ≠ 0.
Proof.
  unfold modifiedCount, debitCond.
  destruct (m !! source tx) as [a|]; [|split; [done|intros (?&?&?); done]].
  destruct (bool_decide (t ∈ pendingTransactions a)) eqn:E1; simpl.
  - apply bool_decide_eq_true in E1.
    destruct (bool_decide (value tx ≤ balance a)) eqn:E2.
    + apply bool_decide_eq_true in E2.
      destruct (decide (inc (- value tx) a = a)) as [Heq|Hne].
      * split; [done|]. intros (a' & [= <-] & _ & _ & Hv).
        apply (f_equal balance) in Heq. simpl in Heq. lia.
      * split; [|done]. intros _. exists a. repeat split; try done.
        intros Hv. apply Hne. unfold inc. rewrite Hv. destruct a; simpl.
        f_equal. lia.
    + apply bool_decide_eq_false in E2.
      split; [done|]. intros (a' & [= <-] & _ & ? & _). done.
  - apply bool_decide_eq_false in E1.
    split; [done|]. intros (a' & [= <-] & ? & _). done.
Qed.

Lemma startTransaction_calm_conflict t w :
  calm w → (∀ tx, transactions w !! t = Some tx → state tx ≠ initial) →
  startTransaction t w = (Throw "Transaction not found or already started", w).
Proof.
  intros Hc Hs. unfold startTransaction.
  rewrite bind_run, findOneAndUpdate_calm_miss by done. reflexivity.
Qed.

Lemma applyTransaction_calm t tx w :
  calm w → transactions w !! t = Some tx → state tx = pending →
  modifiedCount (source tx) (debitCond t tx) (inc (- value tx)) (accounts w) ≠ 0 →
  applyTransaction t w =
  (Return tx,
   mkWorld (moveFunds t tx (accounts w))
     (<[t := setState applied (clock w) tx]> (transactions w))
     (clock w) (faults w) (console w)).
Proof.
  intros Hc Ht Hs Hm. unfold applyTransaction.
  calm_step. rewrite Ht. rewrite bool_decide_eq_true_2 by done. cbn [negb].
  calm_step. fold (debitCond t tx). rewrite bool_decide_eq_false_2 by done.
  do 2 calm_step. reflexivity.
Qed.

Lemma applyTransaction_calm_insufficient t tx w :
  calm w → transactions w !! t = Some tx → state tx = pending →
  modifiedCount (source tx) (debitCond t tx) (inc (- value tx)) (accounts w) = 0 →
  applyTransaction t w =
  (Throw "Insufficient balance or source account not found", w).
Proof.
  intros Hc Ht Hs Hm. unfold applyTransaction.
  calm_step. rewrite Ht. rewrite bool_decide_eq_true_2 by done. cbn [negb].
  calm_step. fold (debitCond t tx). rewrite Hm.
  rewrite (modifiedCount_0_updateAccount _ _ _ _ Hm).
  destruct w; reflexivity.
Qed.

Lemma applyTransaction_calm_conflict t w :
  calm w → (∀ tx, transactions w !! t = Some tx → state tx ≠ pending) →
  applyTransaction t w = (Throw "Transaction not in pending state", w).
Proof.
  intros Hc Hs. unfold applyTransaction. calm_step.
  destruct (transactions w !! t) as [tx|] eqn:Ht; [|reflexivity].
  rewrite bool_decide_eq_false_2 by auto. reflexivity.
Qed.

Lemma completeTransaction_calm t tx w :
  calm w → transactions w !! t = Some tx → state tx = applied →
  completeTransaction t w =
  (Return tx,
   mkWorld (unlockAccounts t tx (accounts w))
     (<[t := setState done (clock w) tx]> (transactions w))
     (clock w) (faults w) (console w)).
Proof.
  intros Hc Ht Hs. unfold completeTransaction.
  calm_step. rewrite Ht. rewrite bool_decide_eq_true_2 by done. cbn [negb].
  do 3 calm_step. reflexivity.
Qed.

Lemma completeTransaction_calm_conflict t w :
  calm w → (∀ tx, transactions w !! t = Some tx → state tx ≠ applied) →
  completeTransaction t w = (Throw "Transaction not in applied state", w).
Proof.
  intros Hc Hs. unfold completeTransaction. calm_step.
  destruct (transactions w !! t) as [tx|] eqn:Ht; [|reflexivity].
  rewrite bool_decide_eq_false_2 by auto. reflexivity.
Qed.

Lemma cancelTransaction_calm t tx w :
  calm w → transactions w !! t = Some tx →
  cancelTransaction t w =
  (Return tx,
   mkWorld (cancelAccounts t tx (accounts w))
     (<[t := setState canceled (clock w) tx]> (transactions w))
     (clock w) (faults w) (console w)).
Proof.
  intros Hc Ht. unfold cancelTransaction, cancelAccounts.
  calm_step. rewrite Ht. calm_step.
  destruct (bool_decide (state tx = applied)).
  - rewrite bind_run. do 2 calm_step. rewrite mret_run. cbv beta iota.
    do 2 calm_step. rewrite bind_run.
    erewrite Transaction_updateOne_calm
      by (auto with calm || (world_simpl; apply lookup_insert_eq)).
    world_simpl. rewrite insert_insert_eq. reflexivity.
  - rewrite bind_run, mret_run. cbv beta iota.
    do 2 calm_step. rewrite bind_run.
    erewrite Transaction_updateOne_calm
      by (auto with calm || (world_simpl; apply lookup_insert_eq)).
    world_simpl. rewrite insert_insert_eq. reflexivity.
Qed.

Lemma cancelTransaction_calm_missing t w :
  calm w → transactions w !! t = None →
  cancelTransaction t w = (Throw "Transaction not found", w).
Proof.
  intros Hc Ht. unfold cancelTransaction. calm_step. rewrite Ht. reflexivity.
Qed.

(** ** The phases when they return, whatever the failure schedule *)

Lemma findOne_Return_inv t w r w' :
  TransactionModel.findOne t w = (Return r, w') →
  r = transactions w !! t ∧ w' = tick w.
Proof.
  unfold TransactionModel.findOne. intros H.
  apply dbCall_Return_inv in H as [_ [= <- <-]]. done.
Qed.

Lemma Account_updateOne_Return_inv id cond upd w n w' :
  AccountModel.updateOne id cond upd w = (Return n, w') →
  n = modifiedCount id cond upd (accounts w)
  ∧ w' = setAccounts (updateAccount id cond upd (accounts w)) (tick w).
Proof.
  unfold AccountModel.updateOne. intros H.
  apply dbCall_Return_inv in H as [_ [= <- <-]]. done.
Qed.

Lemma Transaction_updateOne_Return_inv t st w u w' :
  TransactionModel.updateOne t st w = (Return u, w') →
  w' = match transactions w !! t with
       | Some tx =>
           setTransactions (<[t := setState st (clock w) tx]> (transactions w))
             (tick w)
       | None => tick w
       end.
Proof.
  unfold TransactionModel.updateOne. intros H.
  apply dbCall_Return_inv in H as [_ H]. world_simpl.
  destruct (transactions w !! t); by injection H as _ <-.
Qed.

Lemma findOneAndUpdate_Return_inv t expected st w r w' :
  TransactionModel.findOneAndUpdate t expected st w = (Return r, w') →
  match r with
  | Some tx' =>
      ∃ tx, transactions w !! t = Some tx ∧ state tx = expected
            ∧ tx' = setState st (clock w) tx
            ∧ w' = setTransactions (<[t := tx']> (transactions w)) (tick w)
  | None =>
      (∀ tx, transactions w !! t = Some tx → state tx ≠ expected) ∧ w' = tick w
  end.
Proof.
  unfold TransactionModel.findOneAndUpdate. intros H.
  apply dbCall_Return_inv in H as [_ H]. world_simpl.
  destruct (transactions w !! t) as [tx|].
  - destruct (decide (state tx = expected)) as [Hs|Hs]; injection H as <- <-.
    + exists tx. done.
    + split; [|done]. by intros ? [= <-].
  - injection H as <- <-. done.
Qed.

Lemma startTransaction_Return t w tx' w' :
  startTransaction t w = (Return tx', w') →
  ∃ tx, transactions w !! t = Some tx ∧ state tx = initial
    ∧ tx' = setState pending (clock w) tx
    ∧ accounts w' = lockAccounts t tx (accounts w)
    ∧ transactions w' = <[t := tx']> (transactions w)
    ∧ sameAmbient w w'.
Proof.
  unfold startTransaction. intros H.
  apply bind_Return_inv in H as (r & w1 & H1 & H).
  apply findOneAndUpdate_Return_inv in H1.
  destruct r as [tx1|]; [|discriminate].
  destruct H1 as (tx & Ht & Hs & -> & ->).
  apply bind_Return_inv in H as (n1 & w2 & H1 & H).
  apply Account_updateOne_Return_inv in H1 as [_ ->].
  apply bind_Return_inv in H as (n2 & w3 & H1 & H).
  apply Account_updateOne_Return_inv in H1 as [_ ->].
  injection H as <- <-. exists tx. world_simpl. done.
Qed.

Lemma applyTransaction_Return t w tx w' :
  applyTransaction t w = (Return tx, w') →
  transactions w !! t = Some tx ∧ state tx = pending
  ∧ modifiedCount (source tx) (debitCond t tx) (inc (- value tx)) (accounts w) ≠ 0
  ∧ accounts w' = moveFunds t tx (accounts w)
  ∧ transactions w' = <[t := setState applied (clock w) tx]> (transactions w)
  ∧ sameAmbient w w'.
Proof.
  unfold applyTransaction. intros H.
  apply bind_Return_inv in H as (r & w1 & H1 & H).
  apply findOne_Return_inv in H1 as [-> ->].
  destruct (transactions w !! t) as [tx0|] eqn:Ht; [|discriminate].
  case_bool_decide as Hs; [|discriminate]. cbn [negb] in H.
  apply bind_Return_inv in H as (n1 & w2 & H1 & H).
  apply Account_updateOne_Return_inv in H1 as [-> ->]. world_simpl.
  fold (debitCond t tx0) in H.
  case_bool_decide as Hm; [discriminate|].
  apply bind_Return_inv in H as (n2 & w3 & H1 & H).
  apply Account_updateOne_Return_inv in H1 as [_ ->].
  apply bind_Return_inv in H as (u & w4 & H1 & H).
  apply Transaction_updateOne_Return_inv in H1. world_simpl.
  rewrite Ht in H1. subst w4.
  injection H as <- <-. world_simpl. done.
Qed.

Lemma completeTransaction_Return t w tx w' :
  completeTransaction t w = (Return tx, w') →
  transactions w !! t = Some tx ∧ state tx = applied
  ∧ accounts w' = unlockAccounts t tx (accounts w)
  ∧ transactions w' = <[t := setState done (clock w) tx]> (transactions w)
  ∧ sameAmbient w w'.
Proof.
  unfold completeTransaction. intros H.
  apply bind_Return_inv in H as (r & w1 & H1 & H).
  apply findOne_Return_inv in H1 as [-> ->].
  destruct (transactions w !! t) as [tx0|] eqn:Ht; [|discriminate].
  case_bool_decide as Hs; [|discriminate]. cbn [negb] in H.
  apply bind_Return_inv in H as (n1 & w2 & H1 & H).
  apply Account_updateOne_Return_inv in H1 as [_ ->].
  apply bind_Return_inv in H as (n2 & w3 & H1 & H).
  apply Account_updateOne_Return_inv in H1 as [_ ->].
  apply bind_Return_inv in H as (u & w4 & H1 & H).
  apply Transaction_updateOne_Return_inv in H1. world_simpl.
  rewrite Ht in H1. subst w4.
  injection H as <- <-. world_simpl. done.
Qed.

Lemma cancelTransaction_Return t w tx w' :
  cancelTransaction t w = (Return tx, w') →
  transactions w !! t = Some tx
  ∧ accounts w' = cancelAccounts t tx (accounts w)
  ∧ transactions w' = <[t := setState canceled (clock w) tx]> (transactions w)
  ∧ sameAmbient w w'.
Proof.
  unfold cancelTransaction, cancelAccounts. intros H.
  apply bind_Return_inv in H as (r & w1 & H1 & H).
  apply findOne_Return_inv in H1 as [-> ->].
  destruct (transactions w !! t) as [tx0|] eqn:Ht; [|discriminate].
  apply bind_Return_inv in H as (u & w2 & H1 & H).
  apply Transaction_updateOne_Return_inv in H1. world_simpl.
  rewrite Ht in H1. subst w2.
  apply bind_Return_inv in H as (u' & w3 & H1 & H).
  assert (accounts w3 =
          (if bool_decide (state tx0 = applied)
           then reverseFunds tx0 (accounts w) else accounts w)
          ∧ transactions w3 = <[t := setState canceling (clock w) tx0]> (transactions w)
          ∧ clock w3 = clock w ∧ console w3 = console w) as (Ha & Htx & Hclk & Hcon).
  { destruct (bool_decide (state tx0 = applied)).
    - apply bind_Return_inv in H1 as (n1 & w4 & H2 & H1).
      apply Account_updateOne_Return_inv in H2 as [_ ->].
      apply bind_Return_inv in H1 as (n2 & w5 & H2 & H1).
      apply Account_updateOne_Return_inv in H2 as [_ ->].
      injection H1 as _ <-. world_simpl. done.
    - injection H1 as _ <-. world_simpl. done. }
  clear H1.
  apply bind_Return_inv in H as (n1 & w4 & H1 & H).
  apply Account_updateOne_Return_inv in H1 as [_ ->].
  apply bind_Return_inv in H as (n2 & w5 & H1 & H).
  apply Account_updateOne_Return_inv in H1 as [_ ->].
  apply bind_Return_inv in H as (u2 & w6 & H1 & H).
  apply Transaction_updateOne_Return_inv in H1. world_simpl.
  rewrite Htx, lookup_insert_eq in H1. subst w6.
  injection H as <- <-. world_simpl.
  rewrite Ha, Hclk, insert_insert_eq. repeat split; world_simpl; done.
Qed.

(** ** The orchestration *)

Lemma rollback_run {A} label t e w :
  rollback (A := A) label t e w = (Throw (label +:+ e), afterRollback t w).
Proof.
  unfold rollback, afterRollback, tryCatch, console_error.
  rewrite !bind_run.
  destruct (cancelTransaction t w) as [[tx|e'] w']; reflexivity.
Qed.

(** [executeTransfer] once its arguments have passed validation. *)
Lemma executeTransfer_valid s d a w :
  0 < a → s ≠ d →
  executeTransfer (Some s) (Some d) (Some a) w =
  match TransactionModel.create s d a w with
  | (Throw e, w1) => (Throw e, w1)
  | (Return transaction, w1) =>
      match runPhases transaction.1 w1 with
      | (Return _, w2) =>
          (Return (mkTransferResult true transaction.1
                     "Transfer completed successfully"), w2)
      | (Throw e, w2) => (Throw ("Transfer failed: " +:+ e), afterRollback transaction.1 w2)
      end
  end.
Proof.
  intros Ha Hsd. unfold executeTransfer.
  rewrite !bool_decide_eq_false_2 by (done || lia).
  rewrite bind_run.
  destruct (TransactionModel.create s d a w) as [[tr|e] w1]; [|reflexivity].
  unfold tryCatch. rewrite bind_run.
  destruct (runPhases tr.1 w1) as [[u|e] w2]; [reflexivity|].
  apply rollback_run.
Qed.

Lemma runPhases_Return_inv t w u w' :
  runPhases t w = (Return u, w') →
  ∃ tx1 w1 tx2 w2 tx3,
    startTransaction t w = (Return tx1, w1)
    ∧ applyTransaction t w1 = (Return tx2, w2)
    ∧ completeTransaction t w2 = (Return tx3, w').
Proof.
  unfold runPhases. intros H.
  apply bind_Return_inv in H as (tx1 & w1 & H1 & H).
  apply bind_Return_inv in H as (tx2 & w2 & H2 & H).
  apply bind_Return_inv in H as (tx3 & w3 & H3 & H).
  injection H as _ <-. eauto 10.
Qed.

Lemma create_Return_inv s d a w r w' :
  TransactionModel.create s d a w = (Return r, w') →
  r = (fresh (dom (transactions w)), mkTransaction s d a initial (clock w))
  ∧ w' = setTransactions (<[r.1 := r.2]> (transactions w)) (tick w).
Proof.
  unfold TransactionModel.create. intros H.
  apply dbCall_Return_inv in H as [_ [= <- <-]]. done.
Qed.

Lemma executeTransfer_Return_inv s d a w r w' :
  executeTransfer s d a w = (Return r, w') →
  ∃ s' d' a' tx0 w1 u,
    s = Some s' ∧ d = Some d' ∧ a = Some a' ∧ 0 < a' ∧ s' ≠ d'
    ∧ r = mkTransferResult true (fresh (dom (transactions w)))
            "Transfer completed successfully"
    ∧ TransactionModel.create s' d' a' w = (Return (transactionId r, tx0), w1)
    ∧ runPhases (transactionId r) w1 = (Return u, w').
Proof.
  intros H.
  destruct s as [s'|], d as [d'|], a as [a'|]; try discriminate.
  destruct (decide (0 < a')) as [Ha|Ha].
  2:{ unfold executeTransfer in H.
      case_bool_decide; [discriminate|].
      rewrite bool_decide_eq_true_2 in H by lia. discriminate. }
  destruct (decide (s' = d')) as [->|Hsd].
  { unfold executeTransfer in H.
    rewrite !bool_decide_eq_false_2 in H by lia.
    rewrite bool_decide_eq_true_2 in H by done. discriminate. }
  rewrite executeTransfer_valid in H by done.
  destruct (TransactionModel.create s' d' a' w) as [[[t tx0] |e] w1] eqn:Hc;
    [|discriminate].
  destruct (runPhases (t, tx0).1 w1) as [[u|e] w2] eqn:Hr; [|discriminate].
  injection H as <- <-.
  pose proof (create_Return_inv _ _ _ _ _ _ Hc) as [[= -> ->] _].
  exists s', d', a'. eexists _, w1, u. simpl in *. done.
Qed.

Lemma lockAccounts_ext t tx tx' m :
  source tx' = source tx → destination tx' = destination tx →
  lockAccounts t tx' m = lockAccounts t tx m.
Proof. unfold lockAccounts. by intros -> ->. Qed.

Lemma unlockAccounts_ext t tx tx' m :
  source tx' = source tx → destination tx' = destination tx →
  unlockAccounts t tx' m = unlockAccounts t tx m.
Proof. unfold unlockAccounts. by intros -> ->. Qed.

Lemma addToSet_idem t a : addToSet t (addToSet t a) = addToSet t a.
Proof.
  unfold addToSet at 1. cbn [balance].
  rewrite bool_decide_eq_true_2; [by destruct a|].
  apply elem_of_addToSet. auto.
Qed.

Lemma pull_idem t a : pull t (pull t a) = pull t a.
Proof.
  unfold pull; simpl. f_equal.
  induction (pendingTransactions a) as [|x l IH]; simpl; [done|].
  destruct (bool_decide (x = t)) eqn:E; simpl; [done|].
  rewrite E. simpl. by rewrite IH.
Qed.

Lemma lookup_lockAccounts t tx m k :
  lockAccounts t tx m !! k =
  if decide (k = source tx ∨ k = destination tx)
  then addToSet t <$> m !! k else m !! k.
Proof.
  unfold lockAccounts. rewrite lookup_updateAccount.
  destruct (decide (k = destination tx)) as [->|Hd].
  - rewrite (decide_True (P := _ ∨ _)) by (by right).
    rewrite lookup_updateAccount.
    destruct (decide (destination tx = source tx)) as [Heq|Hne]; [|done].
    rewrite Heq. destruct (m !! source tx) as [a|]; simpl; [|done].
    by rewrite addToSet_idem.
  - rewrite lookup_updateAccount.
    destruct (decide (k = source tx)) as [->|Hs].
    + by rewrite (decide_True (P := _ ∨ _)) by (by left).
    + by rewrite (decide_False (P := _ ∨ _)) by tauto.
Qed.

Lemma lookup_unlockAccounts t tx m k :
  unlockAccounts t tx m !! k =
  if decide (k = source tx ∨ k = destination tx)
  then pull t <$> m !! k else m !! k.
Proof.
  unfold unlockAccounts. rewrite lookup_updateAccount.
  destruct (decide (k = destination tx)) as [->|Hd].
  - rewrite (decide_True (P := _ ∨ _)) by (by right).
    rewrite lookup_updateAccount.
    destruct (decide (destination tx = source tx)) as [Heq|Hne]; [|done].
    rewrite Heq. destruct (m !! source tx) as [a|]; simpl; [|done].
    by rewrite pull_idem.
  - rewrite lookup_updateAccount.
    destruct (decide (k = source tx)) as [->|Hs].
    + by rewrite (decide_True (P := _ ∨ _)) by (by left).
    + by rewrite (decide_False (P := _ ∨ _)) by tauto.
Qed.

Lemma runPhases_Return t w u w' :
  runPhases t w = (Return u, w') →
  ∃ tx, transactions w !! t = Some tx ∧ state tx = initial
    ∧ modifiedCount (source tx) (debitCond t tx) (inc (- value tx))
        (lockAccounts t tx (accounts w)) ≠ 0
    ∧ accounts w' = accountsAfterPhases t tx (accounts w)
    ∧ transactions w' = <[t := setState done (clock w) tx]> (transactions w)
    ∧ sameAmbient w w'.
Proof.
  intros H. apply runPhases_Return_inv in H as (tx1 & w1 & tx2 & w2 & tx3 & H1 & H2 & H3).
  apply startTransaction_Return in H1 as (tx & Ht & Hs & -> & Ha1 & Ht1 & [Hk1 Hc1]).
  apply applyTransaction_Return in H2 as (Ht2' & _ & Hm & Ha2 & Ht2 & [Hk2 Hc2]).
  rewrite Ht1, lookup_insert_eq in Ht2'. injection Ht2' as <-.
  apply completeTransaction_Return in H3 as (Ht3' & _ & Ha3 & Ht3 & [Hk3 Hc3]).
  rewrite Ht2, lookup_insert_eq in Ht3'. injection Ht3' as <-.
  exists tx. rewrite Ha1 in Hm. split; [done|]. split; [done|]. split; [exact Hm|].
  split; [|split].
  - rewrite Ha3, Ha2, Ha1. reflexivity.
  - rewrite Ht3, Ht2, Ht1, !insert_insert_eq, Hk2, Hk1. reflexivity.
  - split; congruence.
Qed.

Lemma runPhases_calm t tx w :
  calm w → transactions w !! t = Some tx → state tx = initial →
  modifiedCount (source tx) (debitCond t tx) (inc (- value tx))
    (lockAccounts t tx (accounts w)) ≠ 0 →
  runPhases t w =
  (Return (),
   mkWorld (accountsAfterPhases t tx (accounts w))
     (<[t := setState done (clock w) tx]> (transactions w))
     (clock w) (faults w) (console w)).
Proof.
  intros Hc Ht Hs Hm. unfold runPhases.
  rewrite bind_run, (startTransaction_calm t tx) by done. cbv beta iota.
  rewrite bind_run.
  rewrite (applyTransaction_calm t (setState pending (clock w) tx))
    by (done || apply lookup_insert_eq).
  cbv beta iota. world_simpl.
  rewrite bind_run.
  rewrite (completeTransaction_calm t
             (setState applied (clock w) (setState pending (clock w) tx)))
    by (done || apply lookup_insert_eq).
  cbv beta iota. world_simpl. rewrite !insert_insert_eq. reflexivity.
Qed.

Lemma runPhases_calm_insufficient t tx w :
  calm w → transactions w !! t = Some tx → state tx = initial →
  modifiedCount (source tx) (debitCond t tx) (inc (- value tx))
    (lockAccounts t tx (accounts w)) = 0 →
  runPhases t w =
  (Throw "Insufficient balance or source account not found",
   mkWorld (lockAccounts t tx (accounts w))
     (<[t := setState pending (clock w) tx]> (transactions w))
     (clock w) (faults w) (console w)).
Proof.
  intros Hc Ht Hs Hm. unfold runPhases.
  rewrite bind_run, (startTransaction_calm t tx) by done. cbv beta iota.
  rewrite bind_run.
  rewrite (applyTransaction_calm_insufficient t (setState pending (clock w) tx))
    by (done || apply lookup_insert_eq).
  reflexivity.
Qed.

Lemma lockAccounts_source t tx (m : gmap positive Account) A :
  m !! source tx = Some A →
  lockAccounts t tx m !! source tx = Some (addToSet t A).
Proof.
  intros H. rewrite lookup_lockAccounts, decide_True by auto. by rewrite H.
Qed.

Lemma debit_possible t tx (m : gmap positive Account) A :
  m !! source tx = Some A → value tx ≤ balance A → value tx ≠ 0 →
  modifiedCount (source tx) (debitCond t tx) (inc (- value tx))
    (lockAccounts t tx m) ≠ 0.
Proof.
  intros HA Hle Hv. apply modifiedCount_debit_pos.
  exists (addToSet t A). rewrite (lockAccounts_source t tx m A HA).
  split; [done|]. split; [apply elem_of_addToSet; auto|]. done.
Qed.

Lemma debit_refused t tx (m : gmap positive Account) A :
  m !! source tx = Some A → balance A < value tx →
  modifiedCount (source tx) (debitCond t tx) (inc (- value tx))
    (lockAccounts t tx m) = 0.
Proof.
  intros HA Hlt.
  destruct (decide (modifiedCount (source tx) (debitCond t tx)
                      (inc (- value tx)) (lockAccounts t tx m) = 0))
    as [|Hne]; [done|].
  apply modifiedCount_debit_pos in Hne as (a & Ha & _ & Hle & _).
  rewrite (lockAccounts_source t tx m A HA) in Ha. injection Ha as <-.
  simpl in Hle. lia.
Qed.

Section AccountsAfterPhases.
Variables (t : ObjectId) (tx : Transaction) (m : gmap positive Account).
Hypothesis Hdistinct : source tx ≠ destination tx.

Lemma accountsAfterPhases_source A :
m !! source tx = Some A → value tx ≤ balance A →
accountsAfterPhases t tx m !! source tx
= Some (pull t (inc (- value tx) (addToSet t A))).
Proof.
intros HA Hle. unfold accountsAfterPhases.
rewrite lookup_unlockAccounts, decide_True by auto.
unfold moveFunds. rewrite lookup_updateAccount, decide_False by done.
rewrite lookup_updateAccount, decide_True by done.
rewrite (lockAccounts_source t tx m A HA). simpl.
unfold debitCond. rewrite !bool_decide_eq_true_2; [done|done|].
apply elem_of_addToSet. auto.
Qed.

Lemma accountsAfterPhases_destination B :
m !! destination tx = Some B →
accountsAfterPhases t tx m !! destination tx
= Some (pull t (inc (value tx) (addToSet t B))).
Proof.
intros HB. unfold accountsAfterPhases.
rewrite lookup_unlockAccounts, decide_True by auto.
unfold moveFunds. rewrite lookup_updateAccount, decide_True by done.
rewrite lookup_updateAccount, decide_False by done.
rewrite lookup_lockAccounts, decide_True by auto. rewrite HB. simpl.
rewrite bool_decide_eq_true_2; [done|].
apply elem_of_addToSet. auto.
Qed.

End AccountsAfterPhases.

Lemma accountsAfterPhases_other t tx m k :
  k ≠ source tx → k ≠ destination tx →
  accountsAfterPhases t tx m !! k = m !! k.
Proof.
  intros Hs Hd. unfold accountsAfterPhases.
  rewrite lookup_unlockAccounts, decide_False by tauto.
  unfold moveFunds. rewrite !lookup_updateAccount, !decide_False by done.
  rewrite lookup_lockAccounts, decide_False by tauto. done.
Qed.

Lemma not_elem_of_pull t a : t ∉ pendingTransactions (pull t a).
Proof. rewrite elem_of_pull. tauto. Qed.

(** C1: a transfer of [amount > 0] from an account holding at least [amount]
    to a different account.  When no store call fails, [executeTransfer]
    returns; and whenever it returns, the source balance has gone down by
    [amount], the destination balance has gone up by [amount], the transaction
    is [done] and its id is in the pending list of neither account. *)
Theorem executeTransfer_success s d amount A B w :
  accounts w !! s = Some A → accounts w !! d = Some B →
  0 < amount → amount ≤ balance A → s ≠ d →
  (calm w → ∃ r w', executeTransfer (Some s) (Some d) (Some amount) w = (Return r, w'))
  ∧ ∀ r w',
      executeTransfer (Some s) (Some d) (Some amount) w = (Return r, w') →
      success r = true
      ∧ balanceOf w' s = Some (balance A - amount)
      ∧ balanceOf w' d = Some (balance B + amount)
      ∧ stateOf w' (transactionId r) = Some done
      ∧ (∃ P, pendingOf w' s = Some P ∧ transactionId r ∉ P)
      ∧ (∃ P, pendingOf w' d = Some P ∧ transactionId r ∉ P).
Proof.
  intros HA HB Hpos Hle Hsd. split.
  - intros Hc. rewrite executeTransfer_valid by done.
    rewrite create_calm by done. cbv beta iota. cbn [fst].
    set (t := fresh (dom (transactions w))).
    set (tx := mkTransaction s d amount initial (clock w)).
    erewrite (runPhases_calm t tx); [eauto| done | apply lookup_insert_eq | done |].
    apply (debit_possible t tx (accounts w) A); simpl; (done || lia).
  - intros r w' H.
    apply executeTransfer_Return_inv in H
      as (s' & d' & a' & tx0 & w1 & u & [= <-] & [= <-] & [= <-] & _ & _ & -> & Hcr & Hrun).
    cbn [transactionId success] in *.
    apply create_Return_inv in Hcr as [[= ->] ->]. cbn [fst snd] in Hrun.
    apply runPhases_Return in Hrun as (tx & Htx & _ & _ & Hacc & Htxs & _).
    world_simpl. rewrite lookup_insert_eq in Htx. injection Htx as <-.
    unfold balanceOf, stateOf, pendingOf. rewrite Hacc, Htxs.
    set (tx := mkTransaction s d amount initial (clock w)).
    rewrite (accountsAfterPhases_source _ tx _ Hsd A) by done.
    rewrite (accountsAfterPhases_destination _ tx _ Hsd B) by done.
    rewrite lookup_insert_eq.
    split; [reflexivity|]. split; [simpl; f_equal; lia|].
    split; [simpl; f_equal; lia|]. split; [reflexivity|].
    split; eexists; (split; [reflexivity | apply not_elem_of_pull]).
Qed.

Lemma executeTransfer_success_witness :
  ∃ r w',
    executeTransfer (Some 1%positive) (Some 2%positive) (Some 500) wBank
    = (Return r, w')
    ∧ balanceOf w' 1%positive = Some 2000
    ∧ balanceOf w' 2%positive = Some 600
    ∧ stateOf w' (transactionId r) = Some done.
Proof.
  destruct (executeTransfer_success 1%positive 2%positive 500
              (mkAccount 2500 []) (mkAccount 100 []) wBank)
    as [Hruns Hpost]; try reflexivity; try discriminate.
  destruct (Hruns eq_refl) as (r & w' & Hrun).
  destruct (Hpost r w' Hrun) as (_ & Hs & Hd & Hst & _).
  exists r, w'. split; [exact Hrun|]. split; [exact Hs|]. split; [exact Hd|].
  exact Hst.
Defined.

Lemma afterRollback_calm t tx w :
  calm w → transactions w !! t = Some tx →
  afterRollback t w =
  mkWorld (cancelAccounts t tx (accounts w))
    (<[t := setState canceled (clock w) tx]> (transactions w))
    (clock w) (faults w) (console w).
Proof.
  intros Hc Ht. unfold afterRollback.
  by rewrite (cancelTransaction_calm t tx).
Qed.

(** A transfer whose debit matches no document, in a calm world: the record is
    created and reserved, Apply throws, Cancel unlocks the accounts. *)
Lemma executeTransfer_calm_refused s d amount w :
  let t := fresh (dom (transactions w)) in
  let tx := mkTransaction s d amount initial (clock w) in
  calm w → 0 < amount → s ≠ d →
  modifiedCount s (debitCond t tx) (inc (- amount))
    (lockAccounts t tx (accounts w)) = 0 →
  executeTransfer (Some s) (Some d) (Some amount) w =
  (Throw ("Transfer failed: " +:+ "Insufficient balance or source account not found"),
   mkWorld (unlockAccounts t tx (lockAccounts t tx (accounts w)))
     (<[t := setState canceled (clock w) tx]> (transactions w))
     (clock w) (faults w) (console w)).
Proof.
  intros t tx Hc Hpos Hsd Hm.
  rewrite executeTransfer_valid by done.
  rewrite create_calm by done. cbv beta iota. cbn [fst]. fold t tx.
  rewrite (runPhases_calm_insufficient t tx) by (done || apply lookup_insert_eq).
  world_simpl.
  rewrite (afterRollback_calm t (setState pending (clock w) tx))
    by (done || apply lookup_insert_eq).
  world_simpl. rewrite !insert_insert_eq. reflexivity.
Qed.

Lemma balance_unlock_lock t tx m k :
  balance <$> unlockAccounts t tx (lockAccounts t tx m) !! k = balance <$> m !! k.
Proof.
  rewrite lookup_unlockAccounts, lookup_lockAccounts.
  case_decide; [|done]. by destruct (m !! k).
Qed.

(** C2: a transfer of more than the source account holds, in a world where no
    store call fails: [executeTransfer] throws [TransferFailed] made from the
    insufficient-funds error, every balance is what it was before the call,
    and the transaction is [canceled]. *)
Theorem executeTransfer_insufficient_funds s d amount A w :
  calm w → accounts w !! s = Some A →
  0 < amount → balance A < amount → s ≠ d →
  ∃ m cause w',
    executeTransfer (Some s) (Some d) (Some amount) w = (Throw m, w')
    ∧ InsufficientFunds cause ∧ TransferFailed cause m
    ∧ (∀ k, balanceOf w' k = balanceOf w k)
    ∧ stateOf w' (fresh (dom (transactions w))) = Some canceled.
Proof.
  intros Hc HA Hpos Hlt Hsd.
  eexists _, _, _. split; [|split; [reflexivity|split; [reflexivity|]]].
  - apply executeTransfer_calm_refused; try done.
    apply (debit_refused _ (mkTransaction s d amount initial (clock w)) _ A);
      simpl; done.
  - split.
    + intros k. unfold balanceOf. world_simpl. apply balance_unlock_lock.
    + unfold stateOf. world_simpl. by rewrite lookup_insert_eq.
Qed.

Lemma executeTransfer_insufficient_funds_witness :
  ∃ m cause w',
    executeTransfer (Some 1%positive) (Some 2%positive) (Some 3000) wBank
    = (Throw m, w')
    ∧ InsufficientFunds cause ∧ TransferFailed cause m
    ∧ balanceOf w' 1%positive = Some 2500
    ∧ balanceOf w' 2%positive = Some 100
    ∧ stateOf w' 1%positive = Some canceled.
Proof.
  destruct (executeTransfer_insufficient_funds 1%positive 2%positive 3000
              (mkAccount 2500 []) wBank)
    as (m & cause & w' & Hrun & Hcause & Hm & Hbal & Hst);
    try reflexivity; try discriminate.
  exists m, cause, w'. split; [exact Hrun|]. split; [exact Hcause|].
  split; [exact Hm|]. rewrite !Hbal. split; [reflexivity|].
  split; [reflexivity|]. exact Hst.
Defined.

(** C10: a transfer from an account id that matches no account document, in a
    world where no store call fails.  Reserve returns; Apply is the first
    phase to throw, with the error of the insufficient-funds branch;
    [executeTransfer] throws it wrapped, and the transaction is [canceled]. *)
Theorem executeTransfer_missing_source s d amount w :
  calm w → accounts w !! s = None → 0 < amount → s ≠ d →
  ∃ t tx0 w1 tx1 w2 cause w3,
    TransactionModel.create s d amount w = (Return (t, tx0), w1)
    ∧ startTransaction t w1 = (Return tx1, w2)
    ∧ applyTransaction t w2 = (Throw cause, w2)
    ∧ InsufficientFunds cause
    ∧ executeTransfer (Some s) (Some d) (Some amount) w
      = (Throw ("Transfer failed: " +:+ cause), w3)
    ∧ stateOf w3 t = Some canceled.
Proof.
  intros Hc Hs Hpos Hsd.
  set (t := fresh (dom (transactions w))).
  set (tx := mkTransaction s d amount initial (clock w)).
  assert (modifiedCount s (debitCond t tx) (inc (- amount))
            (lockAccounts t tx (accounts w)) = 0) as Hm.
  { unfold modifiedCount. rewrite lookup_lockAccounts, Hs.
    by case_decide. }
  eexists t, tx, _, _, _, _, _.
  split; [by apply create_calm|].
  split; [by apply (startTransaction_calm t tx); [|apply lookup_insert_eq|]|].
  split.
  { apply (applyTransaction_calm_insufficient t (setState pending (clock w) tx));
      [done|apply lookup_insert_eq|done|exact Hm]. }
  split; [reflexivity|].
  split; [by apply executeTransfer_calm_refused|].
  unfold stateOf. world_simpl. by rewrite lookup_insert_eq.
Qed.

Lemma executeTransfer_missing_source_witness :
  ∃ cause w3,
    executeTransfer (Some 5%positive) (Some 2%positive) (Some 500) wBank
    = (Throw ("Transfer failed: " +:+ cause), w3)
    ∧ InsufficientFunds cause
    ∧ stateOf w3 1%positive = Some canceled.
Proof.
  destruct (executeTransfer_missing_source 5%positive 2%positive 500 wBank)
    as (t & tx0 & w1 & tx1 & w2 & cause & w3 & Hcreate & _ & _ & Hcause & Hrun & Hst);
    try reflexivity; try discriminate.
  assert (t = 1%positive) as ->.
  { change (t = (1%positive, tx0).1).
    transitivity
      ((λ c, match c with Return r => r.1 | Throw _ => 1%positive end)
         (TransactionModel.create 5%positive 2%positive 500 wBank).1).
    - rewrite Hcreate. reflexivity.
    - vm_compute. reflexivity. }
  exists cause, w3. split; [exact Hrun|]. split; [exact Hcause|]. exact Hst.
Defined.

(** C8: once the transaction record has been created, a failure of a phase
    with message [e] makes [executeTransfer] run Cancel on the world the
    failure left and throw [TransferFailed] carrying [e].  When Cancel returns,
    the call ends in Cancel's world; when Cancel throws [e'], its failure is
    written to the console and nothing else of it is seen: the error thrown is
    still the one made from [e]. *)
Theorem executeTransfer_surfaces_original_error s d amount w t tx0 w1 e w2 :
  0 < amount → s ≠ d →
  TransactionModel.create s d amount w = (Return (t, tx0), w1) →
  runPhases t w1 = (Throw e, w2) →
  ∃ m w3,
    executeTransfer (Some s) (Some d) (Some amount) w = (Throw m, w3)
    ∧ TransferFailed e m
    ∧ (∀ tx wc, cancelTransaction t w2 = (Return tx, wc) → w3 = wc)
    ∧ (∀ e' wc, cancelTransaction t w2 = (Throw e', wc) →
         w3 = setConsole (console wc ++ ["Rollback failed: " +:+ e']) wc).
Proof.
  intros Hpos Hsd Hcreate Hrun.
  exists ("Transfer failed: " +:+ e), (afterRollback t w2).
  split; [|split; [reflexivity|]].
  - rewrite executeTransfer_valid, Hcreate by done. cbn [fst].
    by rewrite Hrun.
  - unfold afterRollback. split.
    + intros tx wc ->. reflexivity.
    + intros e' wc ->. reflexivity.
Qed.

Lemma executeTransfer_surfaces_original_error_witness :
  ∃ m w3,
    executeTransfer (Some 1%positive) (Some 2%positive) (Some 3000) wRollbackFails
    = (Throw m, w3)
    ∧ TransferFailed "Insufficient balance or source account not found" m
    ∧ console w3 = ["Rollback failed: connection lost"].
Proof.
  destruct (executeTransfer_surfaces_original_error
              1%positive 2%positive 3000 wRollbackFails
              1%positive (mkTransaction 1%positive 2%positive 3000 initial 1000)
              (snd (TransactionModel.create 1%positive 2%positive 3000 wRollbackFails))
              "Insufficient balance or source account not found"
              (snd (runPhases 1%positive
                      (snd (TransactionModel.create 1%positive 2%positive 3000
                              wRollbackFails)))))
    as (m & w3 & Hrun & Hm & _ & Hlog).
  - reflexivity.
  - discriminate.
  - vm_compute. reflexivity.
  - vm_compute. reflexivity.
  - exists m, w3. split; [exact Hrun|]. split; [exact Hm|].
    rewrite (Hlog "connection lost" (mkWorld
      {[ 1%positive := mkAccount 2500 [1%positive];
         2%positive := mkAccount 100 [1%positive] ]}
      {[ 1%positive := mkTransaction 1%positive 2%positive 3000 pending 1000 ]}
      1000 [] [])).
    + reflexivity.
    + vm_compute. reflexivity.
Defined.

Lemma findOne_runs t w :
  nextCallRuns w →
  TransactionModel.findOne t w = (Return (transactions w !! t), tick w).
Proof. intros H. unfold TransactionModel.findOne. by rewrite dbCall_runs. Qed.

Lemma findOneAndUpdate_runs_miss t expected st w :
  nextCallRuns w →
  (∀ tx, transactions w !! t = Some tx → state tx ≠ expected) →
  TransactionModel.findOneAndUpdate t expected st w = (Return None, tick w).
Proof.
  intros H Hmiss. unfold TransactionModel.findOneAndUpdate.
  rewrite dbCall_runs by done. world_simpl.
  destruct (transactions w !! t) as [tx|] eqn:Ht.
  - rewrite decide_False by auto. reflexivity.
  - reflexivity.
Qed.

(** C4, as amended: when Reserve, Apply or Finalize has returned for a
    transaction id and is called again on the world it left (its store call
    not failing), the second call throws a state conflict and leaves every
    account and every transaction document as the first call left it. *)
Theorem phase_twice_conflicts p t w r w1 :
  runPhase p t w = (Return r, w1) → nextCallRuns w1 →
  ∃ m w2,
    runPhase p t w1 = (Throw m, w2) ∧ StateConflict m
    ∧ accounts w2 = accounts w1 ∧ transactions w2 = transactions w1.
Proof.
  intros Hfirst Hruns. unfold StateConflict. destruct p; simpl in *.
  - apply startTransaction_Return in Hfirst as (tx & _ & _ & -> & _ & Htxs & _).
    eexists _, (tick w1). split; [|split; [left; reflexivity|done]].
    unfold startTransaction. rewrite bind_run.
    rewrite findOneAndUpdate_runs_miss; [reflexivity|done|].
    intros tx'. rewrite Htxs, lookup_insert_eq. by intros [= <-].
  - apply applyTransaction_Return in Hfirst as (_ & _ & _ & _ & Htxs & _).
    eexists _, (tick w1). split; [|split; [right; left; reflexivity|done]].
    unfold applyTransaction. rewrite bind_run, findOne_runs by done.
    rewrite Htxs, lookup_insert_eq. reflexivity.
  - apply completeTransaction_Return in Hfirst as (_ & _ & _ & Htxs & _).
    eexists _, (tick w1). split; [|split; [right; right; reflexivity|done]].
    unfold completeTransaction. rewrite bind_run, findOne_runs by done.
    rewrite Htxs, lookup_insert_eq. reflexivity.
Qed.

Lemma phase_twice_conflicts_witness :
  ∃ m w2,
    applyTransaction 7%positive (snd (applyTransaction 7%positive wReserved))
    = (Throw m, w2)
    ∧ StateConflict m
    ∧ balanceOf w2 1%positive = Some 2000 ∧ balanceOf w2 2%positive = Some 600.
Proof.
  destruct (phase_twice_conflicts Apply 7%positive wReserved
              (mkTransaction 1%positive 2%positive 500 pending 1000)
              (snd (applyTransaction 7%positive wReserved)))
    as (m & w2 & Hrun & Hm & Hacc & _).
  - vm_compute. reflexivity.
  - intros e. vm_compute. discriminate.
  - exists m, w2. split; [exact Hrun|]. split; [exact Hm|].
    unfold balanceOf. rewrite Hacc. split; vm_compute; reflexivity.
Defined.

(** C4 as stated, for a first call whatever its outcome, does not hold.
    Transaction 7 of 500 is reserved on a source that holds 300: Apply throws
    for lack of funds and leaves the transaction [pending]; Apply called again
    on the world the first call left, with no store failure and nothing
    changed in between, throws the same error, which is no state conflict. *)
Lemma phase_twice_counterexample :
  ¬ (∀ p t w c1 w1,
       runPhase p t w = (c1, w1) → nextCallRuns w1 →
       ∃ m w2, runPhase p t w1 = (Throw m, w2) ∧ StateConflict m
               ∧ accounts w2 = accounts w1).
Proof.
  intros H.
  destruct (H Apply 7%positive wShort
              (Throw "Insufficient balance or source account not found")
              (applyTransaction 7%positive wShort).2)
    as (m & w2 & Hrun & Hm & _).
  - vm_compute. reflexivity.
  - intros e. vm_compute. discriminate.
  - assert (Throw (A := Transaction) m
            = (applyTransaction 7%positive
                 (applyTransaction 7%positive wShort).2).1) as Hthrown
      by (cbn [runPhase] in Hrun; by rewrite Hrun).
    vm_compute in Hthrown. injection Hthrown as ->.
    destruct Hm as [Hm|[Hm|Hm]]; discriminate Hm.
Qed.

Lemma lockAccounts_reserves t tx m k :
  k = source tx ∨ k = destination tx → reservedAt t k (lockAccounts t tx m).
Proof.
  intros Hk a. rewrite lookup_lockAccounts, decide_True by done.
  destruct (m !! k) as [a0|]; [|done]. intros [= <-].
  apply elem_of_addToSet. auto.
Qed.

Lemma balance_unlockAccounts t tx m k :
  balance <$> unlockAccounts t tx m !! k = balance <$> m !! k.
Proof.
  rewrite lookup_unlockAccounts. case_decide; [|done]. by destruct (m !! k).
Qed.

(** The balances after Apply's two updates and Cancel's two reversing updates,
    when the debit matched and the destination is reserved. *)
Lemma balance_reverse_move t tx m k :
  modifiedCount (source tx) (debitCond t tx) (inc (- value tx)) m ≠ 0 →
  reservedAt t (destination tx) m →
  balance <$> reverseFunds tx (moveFunds t tx m) !! k = balance <$> m !! k.
Proof.
  intros Hm Hres.
  apply modifiedCount_debit_pos in Hm as (A & HA & Hin & Hle & _).
  assert (debitCond t tx A = true) as Hcond.
  { unfold debitCond. by rewrite !bool_decide_eq_true_2. }
  unfold reverseFunds, moveFunds.
  destruct (decide (source tx = destination tx)) as [Heq|Hne].
  - rewrite <- Heq in *. rewrite !lookup_updateAccount.
    destruct (decide (k = source tx)) as [->|Hk]; [|done].
    rewrite !decide_True by done.
    rewrite HA. simpl. rewrite Hcond. simpl.
    rewrite bool_decide_eq_true_2 by done. simpl. f_equal. lia.
  - destruct (decide (k = destination tx)) as [->|Hkd].
    + rewrite lookup_updateAccount, decide_True by done.
      rewrite lookup_updateAccount, decide_False by done.
      rewrite lookup_updateAccount, decide_True by done.
      rewrite lookup_updateAccount, decide_False by done.
      destruct (m !! destination tx) as [B|] eqn:HB; [|done].
      simpl. rewrite bool_decide_eq_true_2 by (by apply Hres).
      simpl. f_equal. lia.
    + rewrite lookup_updateAccount, decide_False by done.
      rewrite lookup_updateAccount.
      destruct (decide (k = source tx)) as [->|Hks].
      * rewrite lookup_updateAccount, decide_False by done.
        rewrite lookup_updateAccount, decide_True by done.
        rewrite HA. simpl. rewrite Hcond. simpl. f_equal. lia.
      * rewrite !lookup_updateAccount, !decide_False by done. done.
Qed.

(** Cancel after Apply, on a transaction whose destination is reserved. *)
Lemma cancel_after_apply_restores t w r1 w1 r2 w2 :
  reservedAt t (destination r1) (accounts w) →
  applyTransaction t w = (Return r1, w1) →
  cancelTransaction t w1 = (Return r2, w2) →
  stateOf w1 t = Some applied
  ∧ stateOf w2 t = Some canceled
  ∧ ∀ k, balanceOf w2 k = balanceOf w k.
Proof.
  intros Hres Happly Hcancel.
  apply applyTransaction_Return in Happly as (Ht & Hs & Hm & Hacc1 & Htxs1 & _).
  apply cancelTransaction_Return in Hcancel as (Ht1 & Hacc2 & Htxs2 & _).
  rewrite Htxs1, lookup_insert_eq in Ht1. injection Ht1 as <-.
  unfold stateOf, balanceOf.
  rewrite Htxs2, Htxs1, !lookup_insert_eq. split; [done|]. split; [done|].
  intros k. rewrite Hacc2, Hacc1. unfold cancelAccounts.
  rewrite balance_unlockAccounts. cbn [state setState].
  rewrite bool_decide_eq_true_2 by done.
  by apply (balance_reverse_move t r1).
Qed.

(** X26: a transaction that went through Reserve and Apply and is then
    cancelled, whatever the store failures on the way.  Apply leaves it
    [applied]; where the two accounts are distinct documents, Apply has
    debited the source and credited the destination by the amount; and after
    Cancel every balance is what it was before Apply. *)
Theorem cancel_inverts_apply t w0 r0 w r1 w1 r2 w2 :
  startTransaction t w0 = (Return r0, w) →
  applyTransaction t w = (Return r1, w1) →
  cancelTransaction t w1 = (Return r2, w2) →
  stateOf w1 t = Some applied
  ∧ (source r1 ≠ destination r1 →
     balanceOf w1 (source r1) = (λ b, b - value r1) <$> balanceOf w (source r1)
     ∧ balanceOf w1 (destination r1)
       = (λ b, b + value r1) <$> balanceOf w (destination r1))
  ∧ ∀ k, balanceOf w2 k = balanceOf w k.
Proof.
  intros Hstart Happly Hcancel.
  apply startTransaction_Return in Hstart as (tx & _ & _ & -> & Hacc & Htxs & _).
  pose proof Happly as Happly'.
  apply applyTransaction_Return in Happly' as (Ht & _ & Hm & Hacc1 & _ & _).
  rewrite Htxs, lookup_insert_eq in Ht. injection Ht as <-.
  assert (reservedAt t (destination (setState pending (clock w0) tx)) (accounts w))
    as Hres.
  { rewrite Hacc. apply lockAccounts_reserves. by right. }
  destruct (cancel_after_apply_restores t w _ w1 r2 w2 Hres Happly Hcancel)
    as (H1 & _ & H2).
  split; [exact H1|]. split; [|exact H2].
  intros Hne. unfold balanceOf. rewrite Hacc1. unfold moveFunds.
  apply modifiedCount_debit_pos in Hm as (A & HA & Hin & Hle & _).
  split.
  - rewrite lookup_updateAccount, decide_False by done.
    rewrite lookup_updateAccount, decide_True by done.
    rewrite HA. simpl. unfold debitCond.
    rewrite !bool_decide_eq_true_2 by done. reflexivity.
  - rewrite lookup_updateAccount, decide_True by done.
    rewrite lookup_updateAccount, decide_False by done.
    destruct (accounts w !! destination _) as [B|] eqn:HB; [|done].
    simpl. rewrite bool_decide_eq_true_2 by (by apply Hres). reflexivity.
Qed.

Lemma cancel_inverts_apply_witness :
  let w := snd (startTransaction 7%positive wInitial) in
  let w1 := snd (applyTransaction 7%positive w) in
  let w2 := snd (cancelTransaction 7%positive w1) in
  (balanceOf w 1%positive = Some 2500 ∧ balanceOf w 2%positive = Some 100)
  ∧ (balanceOf w1 1%positive = Some 2000 ∧ balanceOf w1 2%positive = Some 600)
  ∧ ∀ k, balanceOf w2 k = balanceOf w k.
Proof.
  intros w w1 w2.
  split; [split; vm_compute; reflexivity|].
  split; [split; vm_compute; reflexivity|].
  refine (proj2 (proj2 (cancel_inverts_apply 7%positive wInitial
            (mkTransaction 1%positive 2%positive 500 pending 2000) w
            (mkTransaction 1%positive 2%positive 500 pending 2000) w1
            (mkTransaction 1%positive 2%positive 500 applied 2000) w2 _ _ _)));
    vm_compute; reflexivity.
Defined.

(** ** What a computation leaves alone *)

Section Preserves.
Context (R : relation World) `{!PreOrder R}.

Lemma preserves_mret {A} (a : A) : preserves R (mret a : Async A).
Proof. intros w r w' [= _ <-]. reflexivity. Qed.

Lemma preserves_throw {A} e : preserves R (throw e : Async A).
Proof. intros w r w' [= _ <-]. reflexivity. Qed.

Lemma preserves_bind {A B} (c : Async A) (k : A → Async B) :
preserves R c → (∀ a, preserves R (k a)) → preserves R (c ≫= k).
Proof.
intros Hc Hk w r w'. rewrite bind_run.
destruct (c w) as [[a|e] w1] eqn:E; intros H.
- transitivity w1; [by eapply Hc | by eapply Hk].
- injection H as _ <-. by eapply Hc.
Qed.

Lemma preserves_dbCall {A} (op : World → A * World) :
(∀ w, R w (tick w)) → (∀ w, R w (op w).2) → preserves R (dbCall op).
Proof.
intros Htick Hop w r w'. unfold dbCall. fold (tick w).
destruct (head (faults w)) as [[e|]|].
- intros [= _ <-]. apply Htick.
- specialize (Hop (tick w)). destruct (op (tick w)) as [a w1].
  intros [= _ <-]. transitivity (tick w); [apply Htick | exact Hop].
- specialize (Hop (tick w)). destruct (op (tick w)) as [a w1].
  intros [= _ <-]. transitivity (tick w); [apply Htick | exact Hop].
Qed.

End Preserves.

Global Instance txFrame_preorder t : PreOrder (txFrame t).
Proof.
  split.
  - intros w k _. reflexivity.
  - intros w1 w2 w3 H12 H23 k Hk. rewrite H23, H12 by done. reflexivity.
Qed.

Lemma txFrame_findOne t k : preserves (txFrame t) (TransactionModel.findOne k).
Proof. apply preserves_dbCall; [apply _|..]; intros w j _; reflexivity. Qed.

Lemma txFrame_Transaction_updateOne t st :
  preserves (txFrame t) (TransactionModel.updateOne t st).
Proof.
  apply preserves_dbCall; [apply _|..]; intros w j Hj; [reflexivity|].
  destruct (transactions w !! t); [|reflexivity].
  simpl. by rewrite lookup_insert_ne.
Qed.

Lemma txFrame_Account_updateOne t id cond upd :
  preserves (txFrame t) (AccountModel.updateOne id cond upd).
Proof. apply preserves_dbCall; [apply _|..]; intros w j _; reflexivity. Qed.

Lemma cancelTransaction_frame t : preserves (txFrame t) (cancelTransaction t).
Proof.
  unfold cancelTransaction.
  apply preserves_bind; [apply _|apply txFrame_findOne|].
  intros [tx|]; [|apply preserves_throw; apply _].
  apply preserves_bind; [apply _|apply txFrame_Transaction_updateOne|]. intros _.
  apply preserves_bind; [apply _| |].
  { destruct (bool_decide (state tx = applied)); [|apply preserves_mret; apply _].
    apply preserves_bind; [apply _|apply txFrame_Account_updateOne|]. intros _.
    apply preserves_bind; [apply _|apply txFrame_Account_updateOne|]. intros _.
    apply preserves_mret; apply _. }
  intros _.
  apply preserves_bind; [apply _|apply txFrame_Account_updateOne|]. intros _.
  apply preserves_bind; [apply _|apply txFrame_Account_updateOne|]. intros _.
  apply preserves_bind; [apply _|apply txFrame_Transaction_updateOne|]. intros _.
  apply preserves_mret; apply _.
Qed.

(** ** The recovery sweep *)

Lemma recoverLoop_spec (l : list (ObjectId * Transaction)) :
  NoDup l.*1 → ∀ acc w,
  ∃ res,
    recoverLoop l acc w = (Return (acc ++ res)%list, cancelEach l.*1 w)
    ∧ detailTransactionId <$> res = l.*1
    ∧ (∀ k, k ∉ l.*1 →
         transactions (cancelEach l.*1 w) !! k = transactions w !! k)
    ∧ (∀ d, d ∈ res → detailSuccess d = true →
         stateOf (cancelEach l.*1 w) (detailTransactionId d) = Some canceled)
    ∧ (calm w → (∀ t, t ∈ l.*1 → is_Some (transactions w !! t)) →
         calm (cancelEach l.*1 w) ∧ ∀ d, d ∈ res → detailSuccess d = true).
Proof.
  induction l as [|[t tx] l IH]; intros Hnd acc w.
  - exists []. rewrite app_nil_r. simpl. split; [done|]. split; [done|].
    split; [done|]. split; [by intros d Hd%elem_of_nil|].
    intros Hc _. split; [done|]. by intros d Hd%elem_of_nil.
  - rewrite fmap_cons in *. cbn [fst] in *.
    apply NoDup_cons in Hnd as [Hnotin Hnd].
    change (cancelEach (t :: l.*1) w)
      with (cancelEach l.*1 (cancelTransaction t w).2).
    cbn [recoverLoop fst].
    rewrite bind_run. unfold tryCatch at 1. rewrite bind_run.
    destruct (cancelTransaction t w) as [c w1] eqn:Hcw.
    pose proof (cancelTransaction_frame t w c w1 Hcw) as Hframe. cbn [snd].
    set (d := match c with
              | Return _ => mkRecoveryDetail t true None
              | Throw e => mkRecoveryDetail t false (Some e)
              end).
    destruct (IH Hnd (acc ++ [d])%list w1) as (res & Hrun & Hids & Hfr & Hok & Hall).
    exists (d :: res).
    assert (detailTransactionId d = t) as Hd by (by destruct c).
    split; [|split; [|split; [|split]]].
    + rewrite <- app_assoc in Hrun.
      destruct c as [r|e]; cbv beta iota; exact Hrun.
    + by rewrite fmap_cons, Hd, Hids.
    + intros k Hk. apply not_elem_of_cons in Hk as [Hkt Hk].
      rewrite Hfr by done. by apply Hframe.
    + intros d' Hd' Hs. apply elem_of_cons in Hd' as [->|Hd']; [|by apply Hok].
      rewrite Hd. unfold stateOf. rewrite Hfr by done.
      destruct c as [r|e]; [|done].
      destruct (cancelTransaction_Return t w r w1 Hcw) as (_ & _ & -> & _).
      by rewrite lookup_insert_eq.
    + intros Hc Hex.
      destruct (Hex t) as [tx' Htx']; [by left|].
      rewrite (cancelTransaction_calm t tx' w Hc Htx') in Hcw.
      injection Hcw as <- <-.
      destruct Hall as [Hc' Hall'].
      * exact Hc.
      * intros k Hk. rewrite Hframe; [apply Hex; by right|].
        intros ->. done.
      * split; [exact Hc'|]. intros d' Hd'.
        apply elem_of_cons in Hd' as [->|Hd']; [done|by apply Hall'].
Qed.

Lemma find_runs filter w :
  nextCallRuns w →
  TransactionModel.find filter w =
  (Return (List.filter (λ d, filter d.1 d.2) (map_to_list (transactions w))),
   tick w).
Proof. intros H. unfold TransactionModel.find. by rewrite dbCall_runs. Qed.

Lemma NoDup_fst_filter {A B} (f : A * B → bool) (l : list (A * B)) :
  NoDup l.*1 → NoDup (List.filter f l).*1.
Proof.
  induction l as [|x l IH]; [done|].
  rewrite fmap_cons. intros [Hx Hl]%NoDup_cons. simpl.
  destruct (f x); [|by apply IH].
  rewrite fmap_cons. apply NoDup_cons. split; [|by apply IH].
  intros Hin. apply Hx.
  apply list_elem_of_fmap in Hin as (y & -> & Hy).
  apply list_elem_of_fmap. exists y. split; [done|].
  apply list_elem_of_In, filter_In in Hy as [Hy _]. by apply list_elem_of_In.
Qed.

Lemma elem_of_found filter (m : gmap positive Transaction) t :
  t ∈ (List.filter (λ d, filter d.1 d.2) (map_to_list m)).*1
  ↔ ∃ tx, m !! t = Some tx ∧ filter t tx = true.
Proof.
  rewrite list_elem_of_fmap. split.
  - intros ([k tx] & -> & Hin).
    apply list_elem_of_In, filter_In in Hin as [Hin Hf].
    apply list_elem_of_In, elem_of_map_to_list in Hin. by exists tx.
  - intros (tx & Ht & Hf). exists (t, tx). split; [done|].
    apply list_elem_of_In, filter_In. split; [|done].
    by apply list_elem_of_In, elem_of_map_to_list.
Qed.

Lemma isStuck_true cutoff tx :
  isStuck cutoff tx = true
  ↔ (state tx = pending ∨ state tx = applied) ∧ lastModified tx < cutoff.
Proof.
  unfold isStuck.
  rewrite andb_true_iff, orb_true_iff, !bool_decide_eq_true. reflexivity.
Qed.

Lemma length_filter_partition {A} (f : A → bool) (l : list A) :
  (length (List.filter f l) + length (List.filter (λ x, negb (f x)) l)
   = length l)%nat.
Proof.
  induction l as [|x l IH]; [done|]. simpl.
  destruct (f x); simpl; lia.
Qed.

Lemma filter_all {A} (f : A → bool) (l : list A) :
  (∀ x, x ∈ l → f x = true) → List.filter f l = l.
Proof.
  induction l as [|x l IH]; [done|]. intros H. simpl.
  rewrite (H x) by (by left). f_equal. apply IH. intros y Hy. apply H. by right.
Qed.

(** C6: the sweep, when its query runs.  It returns; the detail list has one
    entry for each transaction that is [pending] or [applied] and was last
    modified strictly before [now - timeout], and for no other; the world it
    leaves is the one obtained by running Cancel on each of them in turn,
    whether or not a Cancel throws; every other transaction document, so every
    one that is [initial], [done] or [canceled], is as it was, however old; a
    transaction whose entry reports success is [canceled]; [recovered] and
    [failed] count the entries that report success and failure.  When no
    store call fails every entry reports success. *)
Theorem recoverStuckTransactions_sweep timeoutMinutes w :
  nextCallRuns w →
  ∃ r w',
    recoverStuckTransactions timeoutMinutes w = (Return r, w')
    ∧ let ids := detailTransactionId <$> details r in
      let cutoff := clock w - default 5 timeoutMinutes * 60 * 1000 in
      NoDup ids
      ∧ (∀ t, t ∈ ids ↔ stuck cutoff w t)
      ∧ w' = cancelEach ids (tick w)
      ∧ (∀ t, t ∉ ids → transactions w' !! t = transactions w !! t)
      ∧ (∀ t tx, transactions w !! t = Some tx →
           state tx = initial ∨ state tx = done ∨ state tx = canceled →
           transactions w' !! t = Some tx)
      ∧ (∀ d, d ∈ details r → detailSuccess d = true →
           stateOf w' (detailTransactionId d) = Some canceled)
      ∧ recovered r = length (List.filter detailSuccess (details r))
      ∧ failed r = length (List.filter (λ d, negb (detailSuccess d)) (details r))
      ∧ (recovered r + failed r = length ids)%nat
      ∧ (calm w → recovered r = length ids ∧ failed r = 0%nat).
Proof.
  intros Hruns. unfold recoverStuckTransactions.
  set (cutoff := clock w - default 5 timeoutMinutes * 60 * 1000).
  rewrite bind_run. unfold Date_now. cbv beta iota. fold cutoff.
  rewrite bind_run, find_runs by done. cbv beta iota.
  set (l := List.filter _ (map_to_list (transactions w))).
  assert (NoDup l.*1) as Hnd
    by apply NoDup_fst_filter, NoDup_fst_map_to_list.
  destruct (recoverLoop_spec l Hnd [] (tick w))
    as (res & Hrun & Hids & Hfr & Hok & Hall).
  rewrite bind_run, Hrun. cbv beta iota. rewrite app_nil_l.
  eexists _, _. split; [reflexivity|]. cbn [details recovered failed].
  rewrite Hids.
  assert (∀ t, t ∈ l.*1 ↔ stuck cutoff w t) as Hsel.
  { intros t. unfold l, stuck.
    rewrite (elem_of_found (λ _ tx, isStuck cutoff tx) (transactions w) t).
    split; intros (tx & Ht & H); exists tx; (split; [done|]);
      by apply isStuck_true. }
  split; [done|]. split; [done|]. split; [done|]. split; [exact Hfr|].
  split.
  { intros t tx Ht Hs. rewrite Hfr; [done|].
    intros (tx' & Ht' & Hs' & _)%Hsel. rewrite Ht in Ht'. injection Ht' as <-.
    destruct Hs as [Hs|[Hs|Hs]], Hs' as [Hs'|Hs']; congruence. }
  split; [exact Hok|]. split; [done|]. split; [done|].
  split.
  { rewrite length_filter_partition, <- Hids. by rewrite length_fmap. }
  intros Hc.
  destruct Hall as [_ Hall].
  { by rewrite tick_calm. }
  { intros t (tx & Ht & _)%Hsel. by exists tx. }
  pose proof (length_filter_partition detailSuccess res) as Hlen.
  rewrite (filter_all detailSuccess res Hall) in Hlen |- *.
  rewrite <- Hids, length_fmap. split; [done|]. lia.
Qed.

Lemma recoverStuckTransactions_sweep_witness :
  ∃ r w',
    recoverStuckTransactions None wSweep = (Return r, w')
    ∧ (∀ t, t ∈ detailTransactionId <$> details r
            ↔ stuck (1000000 - 5 * 60 * 1000) wSweep t)
    ∧ recovered r = 1%nat ∧ failed r = 1%nat.
Proof.
  destruct (recoverStuckTransactions_sweep None wSweep)
    as (r & w' & Hrun & _ & Hsel & _).
  - intros e. vm_compute. discriminate.
  - exists r, w'. split; [exact Hrun|]. split; [exact Hsel|].
    assert (Return (A := RecoveryResult) r
            = Return (mkRecoveryResult 1 1
                [mkRecoveryDetail 10%positive true None;
                 mkRecoveryDetail 8%positive false (Some "write conflict")])) as Hr.
    { transitivity (fst (recoverStuckTransactions None wSweep)).
      - rewrite Hrun. reflexivity.
      - vm_compute. reflexivity. }
    injection Hr as ->. split; reflexivity.
Defined.

(** ** The balance projection *)

Lemma sumZ_cons x l : sumZ (x :: l) = x + sumZ l.
Proof. reflexivity. Qed.

Lemma sumZ_Permutation l1 l2 : l1 ≡ₚ l2 → sumZ l1 = sumZ l2.
Proof.
  unfold sumZ.
  induction 1 as [|x l1 l2 _ IH|x y l|l1 l2 l3 _ IH1 _ IH2]; simpl; try lia.
Qed.

Lemma sumZ_filter {A} (f : A → bool) (g : A → Z) (l : list A) :
  sumZ (g <$> List.filter f l) = sumZ ((λ x, if f x then g x else 0) <$> l).
Proof.
  unfold sumZ. induction l as [|x l IH]; [done|].
  cbn [List.filter]. rewrite fmap_cons. destruct (f x).
  - rewrite fmap_cons. cbn [foldr]. by rewrite IH.
  - cbn [foldr]. by rewrite IH.
Qed.

Lemma sumZ_zero {A} (g : A → Z) (l : list A) :
  (∀ x, x ∈ l → g x = 0) → sumZ (g <$> l) = 0.
Proof.
  unfold sumZ. induction l as [|x l IH]; [done|]. intros H.
  rewrite !fmap_cons. cbn [foldr].
  rewrite (H x) by (by left). rewrite IH; [done|].
  intros y Hy. apply H. by right.
Qed.

Lemma sumZ_ext {A} (g g' : A → Z) (l : list A) :
  (∀ x, x ∈ l → g x = g' x) → sumZ (g <$> l) = sumZ (g' <$> l).
Proof.
  unfold sumZ. induction l as [|x l IH]; [done|]. intros H.
  rewrite !fmap_cons. cbn [foldr].
  rewrite (H x) by (by left). rewrite IH; [done|].
  intros y Hy. apply H. by right.
Qed.

(** Changing a summand at one index of a duplicate-free list. *)
Lemma sumZ_update (φ : positive → Z) (i : positive) (c : Z) (l : list positive) :
  NoDup l → φ i = 0 →
  sumZ ((λ t, if decide (t = i) then c else φ t) <$> l)
  = sumZ (φ <$> l) + (if decide (i ∈ l) then c else 0).
Proof.
  intros Hnd Hi. unfold sumZ. induction Hnd as [|x l Hx Hnd IH]; [done|].
  rewrite !fmap_cons. cbn [foldr]. rewrite IH.
  destruct (decide (x = i)) as [->|Hne].
  - rewrite (decide_True (P := i ∈ i :: l)) by (by left).
    rewrite (decide_False (P := i ∈ l)) by done. lia.
  - destruct (decide (i ∈ l)) as [Hin|Hnin].
    + rewrite (decide_True (P := i ∈ x :: l)) by (by right). lia.
    + rewrite (decide_False (P := i ∈ x :: l)); [lia|].
      intros [?|?]%elem_of_cons; congruence.
Qed.

(** Summing over the documents a query finds is summing over the ids the
    query asks for. *)
Lemma sumZ_found (P : list positive) (h : Transaction → Z)
    (m : gmap positive Transaction) :
  sumZ ((λ d, h d.2)
          <$> List.filter (λ d : positive * Transaction, bool_decide (d.1 ∈ P))
                (map_to_list m))
  = sumZ ((λ t, match m !! t with Some tx => h tx | None => 0 end)
            <$> remove_dups P).
Proof.
  rewrite sumZ_filter.
  induction m as [|i x m Hi _ IH] using map_first_key_ind.
  - rewrite map_to_list_empty. simpl. symmetry. apply sumZ_zero.
    intros t _. by rewrite lookup_empty.
  - rewrite (sumZ_Permutation _ _
      (fmap_Permutation _ _ _ (map_to_list_insert m i x Hi))).
    rewrite fmap_cons, sumZ_cons. cbn [fst snd].
    rewrite IH.
    transitivity
      (sumZ ((λ t, if decide (t = i) then h x
                   else match m !! t with Some tx => h tx | None => 0 end)
             <$> remove_dups P)).
    + rewrite sumZ_update;
        [|apply NoDup_remove_dups|cbv beta; by rewrite Hi].
      rewrite Z.add_comm. f_equal.
      destruct (decide (i ∈ remove_dups P)) as [Hin|Hnin].
      * rewrite bool_decide_eq_true_2; [done|]. by apply elem_of_remove_dups.
      * rewrite bool_decide_eq_false_2; [done|]. by rewrite <- elem_of_remove_dups.
    + apply sumZ_ext. intros t _. destruct (decide (t = i)) as [->|Hne].
      * by rewrite lookup_insert_eq.
      * by rewrite lookup_insert_ne.
Qed.

Lemma sumPending_sums accountId l x y :
  sumPending accountId l (x, y)
  = (x + sumZ ((λ d : positive * Transaction,
                  if bool_decide (source d.2 = accountId) then value d.2 else 0) <$> l),
     y + sumZ ((λ d : positive * Transaction,
                  if bool_decide (destination d.2 = accountId) then value d.2 else 0) <$> l)).
Proof.
  revert x y. induction l as [|d l IH]; intros x y.
  - simpl. f_equal; lia.
  - cbn [sumPending]. rewrite !fmap_cons, !sumZ_cons.
    destruct (bool_decide (source d.2 = accountId)),
             (bool_decide (destination d.2 = accountId));
      cbn [fst snd]; rewrite IH; f_equal; lia.
Qed.

Lemma filter_andb {A} (f g : A → bool) (l : list A) :
  List.filter (λ x, f x && g x) l = List.filter g (List.filter f l).
Proof.
  induction l as [|x l IH]; [done|]. simpl.
  destruct (f x); simpl; [destruct (g x)|]; by rewrite IH.
Qed.

(** The sum the loop computes for one role over the documents found. *)
Lemma found_pendingSum role accountId account w :
  sumZ ((λ d : positive * Transaction,
           if bool_decide (role d.2 = accountId) then value d.2 else 0)
        <$> List.filter
              (λ d : positive * Transaction,
                 bool_decide (d.1 ∈ pendingTransactions account) && inFlight d.2)
              (map_to_list (transactions w)))
  = pendingSum role accountId account w.
Proof.
  unfold pendingSum.
  rewrite (filter_andb (λ d : positive * Transaction,
                          bool_decide (d.1 ∈ pendingTransactions account))
             (λ d, inFlight d.2)).
  rewrite sumZ_filter.
  set (h := λ tx : Transaction,
         if inFlight tx
         then if bool_decide (role tx = accountId) then value tx else 0
         else 0).
  transitivity
    (sumZ ((λ d : positive * Transaction, h d.2)
           <$> List.filter
                 (λ d : positive * Transaction,
                    bool_decide (d.1 ∈ pendingTransactions account))
                 (map_to_list (transactions w)))); [reflexivity|].
  rewrite sumZ_found.
  apply sumZ_ext. intros t _. unfold h.
  destruct (transactions w !! t) as [tx|]; [|done].
  by destruct (inFlight tx).
Qed.

(** C7: for an existing account, when no store call fails,
    [getAccountBalance] returns without changing the world;
    [pendingDebit] is the sum of the amounts of the [pending] or [applied]
    transactions of the account's pending set that have the account as source,
    [pendingCredit] the same sum over those that have it as destination,
    [availableBalance] is [balance - pendingDebit] and [projectedBalance] is
    [balance - pendingDebit + pendingCredit]; so with balance 1000,
    pending debit 200 and pending credit 150 they are 800 and 950. *)
Theorem getAccountBalance_projection id account w :
  calm w → accounts w !! id = Some account →
  ∃ info,
    getAccountBalance id w = (Return info, w)
    ∧ accountId info = id
    ∧ infoBalance info = balance account
    ∧ pendingDebit info = pendingSum source id account w
    ∧ pendingCredit info = pendingSum destination id account w
    ∧ availableBalance info = balance account - pendingDebit info
    ∧ projectedBalance info
      = balance account - pendingDebit info + pendingCredit info
    ∧ (balance account = 1000 → pendingDebit info = 200 →
       pendingCredit info = 150 →
       availableBalance info = 800 ∧ projectedBalance info = 950).
Proof.
  intros Hc Ha. unfold getAccountBalance.
  calm_step. rewrite Ha. calm_step.
  fold (inFlight).
  rewrite sumPending_sums, !Z.add_0_l.
  rewrite !(found_pendingSum _ id account w).
  eexists. split; [reflexivity|]. cbn.
  repeat split; lia.
Qed.

Lemma getAccountBalance_projection_witness :
  ∃ info,
    getAccountBalance 1%positive wProjection = (Return info, wProjection)
    ∧ pendingDebit info = 200 ∧ pendingCredit info = 150
    ∧ availableBalance info = 800 ∧ projectedBalance info = 950.
Proof.
  destruct (getAccountBalance_projection 1%positive
              (mkAccount 1000 [7%positive; 8%positive; 9%positive]) wProjection)
    as (info & Hrun & _ & _ & Hd & Hcr & _ & _ & Hex).
  - reflexivity.
  - vm_compute. reflexivity.
  - assert (pendingDebit info = 200) as Hd' by (rewrite Hd; vm_compute; reflexivity).
    assert (pendingCredit info = 150) as Hc' by (rewrite Hcr; vm_compute; reflexivity).
    exists info. split; [exact Hrun|]. split; [exact Hd'|]. split; [exact Hc'|].
    apply Hex; [reflexivity|exact Hd'|exact Hc'].
Defined.

(** ** A finished transaction is not safe from Cancel *)

(** C3 fails on the code.  A transaction that is [done] (500 moved from
    account 1 to account 2) is taken to [canceled] by [cancelTransaction], and
    also by [executeExistingTransaction], whose Reserve throws and whose
    [catch] block then cancels; the balances stay as the transfer left them. *)
Theorem done_transaction_is_canceled :
  stateOf wDone 7%positive = Some done
  ∧ stateOf (cancelTransaction 7%positive wDone).2 7%positive = Some canceled
  ∧ (executeExistingTransaction 7%positive wDone).1
    = Throw "Transaction failed: Transaction not found or already started"
  ∧ stateOf (executeExistingTransaction 7%positive wDone).2 7%positive
    = Some canceled
  ∧ balanceOf (executeExistingTransaction 7%positive wDone).2 1%positive
    = Some 2000
  ∧ balanceOf (executeExistingTransaction 7%positive wDone).2 2%positive
    = Some 600.
Proof. vm_compute. repeat split. Qed.

(** Cancel takes a transaction to [canceled] from whatever state it finds. *)
Lemma cancelTransaction_from_any_state t tx w :
  calm w → transactions w !! t = Some tx →
  ∃ w', cancelTransaction t w = (Return tx, w')
        ∧ stateOf w' t = Some canceled.
Proof.
  intros Hc Ht. eexists. split; [by apply cancelTransaction_calm|].
  unfold stateOf. world_simpl. by rewrite lookup_insert_eq.
Qed.

(** ** The forward phases keep to the order of the states *)

Lemma dbCall_inv {A} (op : World → A * World) w c w' :
  dbCall op w = (c, w') →
  (∃ e, c = Throw e ∧ w' = tick w)
  ∨ (∃ a, c = Return a ∧ op (tick w) = (a, w')).
Proof.
  unfold dbCall. fold (tick w). destruct (head (faults w)) as [[e|]|].
  - intros [= <- <-]. left. eauto.
  - destruct (op (tick w)) as [a w1]. intros [= <- <-]. right. eauto.
  - destruct (op (tick w)) as [a w1]. intros [= <- <-]. right. eauto.
Qed.

Global Instance sameTransactions_preorder : PreOrder sameTransactions.
Proof.
  split.
  - intros w. by split.
  - intros w1 w2 w3 [H1 H1'] [H2 H2']. split; congruence.
Qed.

Lemma sameTransactions_findOne k :
  preserves sameTransactions (TransactionModel.findOne k).
Proof. apply preserves_dbCall; [apply _|..]; intros w; by split. Qed.

Lemma sameTransactions_Account_updateOne id cond upd :
  preserves sameTransactions (AccountModel.updateOne id cond upd).
Proof. apply preserves_dbCall; [apply _|..]; intros w; by split. Qed.

Lemma movesOnly_updateOne t from to w0 tx w c w' :
  sameTransactions w0 w → transactions w0 !! t = Some tx → state tx = from →
  TransactionModel.updateOne t to w = (c, w') →
  movesOnly t from to w0 w'.
Proof.
  intros [Htx Hclk] Ht Hs H. unfold TransactionModel.updateOne in H.
  apply dbCall_inv in H as [(e & _ & ->)|(a & _ & H)].
  - left. world_simpl. done.
  - world_simpl. rewrite Htx, Ht in H. injection H as _ <-.
    right. exists tx. world_simpl. rewrite ?Htx, ?Hclk. done.
Qed.

Lemma movesOnly_same t from to w w' :
  sameTransactions w w' → movesOnly t from to w w'.
Proof. intros [H _]. by left. Qed.

(** A run of a forward phase either leaves the transaction collection alone
    or takes the one step of the phase. *)
Lemma runPhase_movesOnly p t w c w' :
  runPhase p t w = (c, w') →
  movesOnly t (phaseFrom p) (phaseTo p) w w'.
Proof.
  destruct p; cbn [runPhase phaseFrom phaseTo].
  - unfold startTransaction. rewrite bind_run.
    destruct (TransactionModel.findOneAndUpdate t initial pending w)
      as [[r|e] w1] eqn:E1.
    + apply findOneAndUpdate_Return_inv in E1.
      destruct r as [tx'|].
      * destruct E1 as (tx & Ht & Hs & -> & ->). intros H.
        right. exists tx. split; [done|]. split; [done|].
        assert (preserves sameTransactions
                  (AccountModel.updateOne (source (setState pending (clock w) tx))
                     (λ _, true) (addToSet t);;
                   AccountModel.updateOne (destination (setState pending (clock w) tx))
                     (λ _, true) (addToSet t);;
                   mret (setState pending (clock w) tx))) as Hp.
        { apply preserves_bind; [apply _|apply sameTransactions_Account_updateOne|].
          intros _.
          apply preserves_bind; [apply _|apply sameTransactions_Account_updateOne|].
          intros _. apply preserves_mret; apply _. }
        destruct (Hp _ _ _ H) as [-> _]. done.
      * destruct E1 as [_ ->]. intros [= _ <-]. by left.
    + unfold TransactionModel.findOneAndUpdate in E1.
      apply dbCall_Throw_inv in E1 as [_ ->]. intros [= _ <-]. by left.
  - unfold applyTransaction. rewrite bind_run.
    destruct (TransactionModel.findOne t w) as [[r|e] w1] eqn:E1.
    2:{ apply sameTransactions_findOne in E1. intros [= _ <-].
        by apply movesOnly_same. }
    pose proof (sameTransactions_findOne _ _ _ _ E1) as H1.
    apply findOne_Return_inv in E1 as [-> _].
    destruct (transactions w !! t) as [tx|] eqn:Ht;
      [|intros [= _ <-]; by apply movesOnly_same].
    case_bool_decide as Hs; cbn [negb];
      [|intros [= _ <-]; by apply movesOnly_same].
    rewrite bind_run.
    destruct (AccountModel.updateOne _ _ _ w1) as [[n|e] w2] eqn:E2.
    2:{ apply sameTransactions_Account_updateOne in E2. intros [= _ <-].
        apply movesOnly_same. by transitivity w1. }
    apply sameTransactions_Account_updateOne in E2.
    case_bool_decide; [intros [= _ <-]; apply movesOnly_same; by transitivity w1|].
    rewrite bind_run.
    destruct (AccountModel.updateOne _ _ _ w2) as [[n'|e] w3] eqn:E3.
    2:{ apply sameTransactions_Account_updateOne in E3. intros [= _ <-].
        apply movesOnly_same. transitivity w1; [done|]. by transitivity w2. }
    apply sameTransactions_Account_updateOne in E3.
    assert (sameTransactions w w3) as H3
      by (transitivity w1; [done|]; by transitivity w2).
    rewrite bind_run.
    destruct (TransactionModel.updateOne t applied w3) as [[u|e] w4] eqn:E4.
    + intros [= _ <-]. by eapply movesOnly_updateOne.
    + intros [= _ <-]. by eapply movesOnly_updateOne.
  - unfold completeTransaction. rewrite bind_run.
    destruct (TransactionModel.findOne t w) as [[r|e] w1] eqn:E1.
    2:{ apply sameTransactions_findOne in E1. intros [= _ <-].
        by apply movesOnly_same. }
    pose proof (sameTransactions_findOne _ _ _ _ E1) as H1.
    apply findOne_Return_inv in E1 as [-> _].
    destruct (transactions w !! t) as [tx|] eqn:Ht;
      [|intros [= _ <-]; by apply movesOnly_same].
    case_bool_decide as Hs; cbn [negb];
      [|intros [= _ <-]; by apply movesOnly_same].
    rewrite bind_run.
    destruct (AccountModel.updateOne _ _ _ w1) as [[n|e] w2] eqn:E2.
    2:{ apply sameTransactions_Account_updateOne in E2. intros [= _ <-].
        apply movesOnly_same. by transitivity w1. }
    apply sameTransactions_Account_updateOne in E2.
    rewrite bind_run.
    destruct (AccountModel.updateOne _ _ _ w2) as [[n'|e] w3] eqn:E3.
    2:{ apply sameTransactions_Account_updateOne in E3. intros [= _ <-].
        apply movesOnly_same. transitivity w1; [done|]. by transitivity w2. }
    apply sameTransactions_Account_updateOne in E3.
    assert (sameTransactions w w3) as H3
      by (transitivity w1; [done|]; by transitivity w2).
    rewrite bind_run.
    destruct (TransactionModel.updateOne t done w3) as [[u|e] w4] eqn:E4.
    + intros [= _ <-]. by eapply movesOnly_updateOne.
    + intros [= _ <-]. by eapply movesOnly_updateOne.
Qed.

(** X3: a run of Reserve, Apply or Finalize on [t], whether it returns or
    throws and whichever store calls fail, leaves the transaction collection
    as it was or moves the document [t] from the state the phase starts from
    to the state it ends in: [initial] to [pending], [pending] to [applied],
    [applied] to [done]. *)
Theorem forward_phase_moves_in_order p t w :
  movesOnly t (phaseFrom p) (phaseTo p) w (runPhase p t w).2.
Proof. by eapply runPhase_movesOnly, surjective_pairing. Qed.

(** X4: a run of Reserve, Apply or Finalize, on whatever id and whichever
    store calls fail, leaves every [done] and every [canceled] transaction
    document as it is. *)
Theorem forward_phase_keeps_terminal p t w c w' k tx :
  runPhase p t w = (c, w') →
  transactions w !! k = Some tx → state tx = done ∨ state tx = canceled →
  transactions w' !! k = Some tx.
Proof.
  intros H Hk Hs.
  apply runPhase_movesOnly in H as [->|(tx' & Ht & Hfrom & ->)]; [done|].
  destruct (decide (k = t)) as [->|Hne]; [|by rewrite lookup_insert_ne].
  rewrite Hk in Ht. injection Ht as <-.
  destruct p, Hs as [Hs|Hs]; cbn in Hfrom; congruence.
Qed.

Lemma forward_phase_keeps_terminal_witness :
  transactions (applyTransaction 7%positive wDone).2 !! 7%positive
  = Some (mkTransaction 1%positive 2%positive 500 done 1000).
Proof.
  apply (forward_phase_keeps_terminal Apply 7%positive wDone
           (applyTransaction 7%positive wDone).1
           (applyTransaction 7%positive wDone).2 7%positive
           (mkTransaction 1%positive 2%positive 500 done 1000)).
  - apply surjective_pairing.
  - reflexivity.
  - left. reflexivity.
Defined.

(** ** Where the hypotheses matter *)

(** [executeTransfer] to an id that matches no account document: Apply's
    credit matches nothing and is not checked, so the call returns with the
    source debited. *)
Example executeTransfer_without_destination :
  let '(c, w') :=
    executeTransfer (Some 1%positive) (Some 5%positive) (Some 500) wBank in
  c = Return (mkTransferResult true 1%positive "Transfer completed successfully")
  ∧ balanceOf w' 1%positive = Some 2000
  ∧ balanceOf w' 2%positive = Some 100
  ∧ balanceOf w' 5%positive = None
  ∧ stateOf w' 1%positive = Some done.
Proof. vm_compute. repeat split. Qed.

(** C5 does not hold of the code.  Transaction 7 of 500 is [pending], its
    source (balance 2500) lists it and its destination (balance 100) does not,
    as after a Reserve interrupted before its last update.  Apply returns: the
    debit matches and is checked, the credit is filtered on the list, matches
    nothing and is not checked, and the state becomes [applied].  Cancel
    returns: it reads [applied] and reverses both updates with no filter.  The
    source is back at 2500; the destination, never credited, is at -400. *)
Theorem cancel_after_unreserved_apply :
  let '(c1, w1) := applyTransaction 7%positive wHalfReserved in
  let '(c2, w2) := cancelTransaction 7%positive w1 in
  (balanceOf wHalfReserved 1%positive = Some 2500
   ∧ balanceOf wHalfReserved 2%positive = Some 100)
  ∧ (c1 = Return (mkTransaction 1%positive 2%positive 500 pending 1000)
     ∧ stateOf w1 7%positive = Some applied
     ∧ balanceOf w1 1%positive = Some 2000 ∧ balanceOf w1 2%positive = Some 100)
  ∧ (c2 = Return (mkTransaction 1%positive 2%positive 500 applied 2000)
     ∧ stateOf w2 7%positive = Some canceled
     ∧ balanceOf w2 1%positive = Some 2500
     ∧ balanceOf w2 2%positive = Some (-400)).
Proof. vm_compute. repeat split. Qed.

(** Apply that threw for lack of funds leaves the transaction [pending]: a
    second Apply throws the same error, not a state conflict, and no balance
    moves. *)
Example apply_twice_without_funds :
  let '(c1, w1) := applyTransaction 7%positive wShort in
  let '(c2, w2) := applyTransaction 7%positive w1 in
  c1 = Throw "Insufficient balance or source account not found"
  ∧ c2 = Throw "Insufficient balance or source account not found"
  ∧ stateOf w2 7%positive = Some pending
  ∧ balanceOf w2 1%positive = Some 300 ∧ balanceOf w2 2%positive = Some 100.
Proof. vm_compute. repeat split. Qed.

(** ** What holds across every call *)

Lemma preserves_tryCatch (R : relation World) {A} (c : Async A) h :
  Transitive R →
  preserves R c → (∀ e, preserves R (h e)) → preserves R (tryCatch c h).
Proof.
  intros HT Hc Hh w r w'. unfold tryCatch.
  destruct (c w) as [[a|e] w1] eqn:E; intros H.
  - injection H as _ <-. by eapply Hc.
  - transitivity w1; [by eapply Hc | by eapply Hh].
Qed.

Section EveryCall.
Context (R : relation World) `{!AllowsWrites R}.

Lemma allowed_findOne k : preserves R (TransactionModel.findOne k).
Proof.
  apply preserves_dbCall; [apply _|apply allows_tick|]. intros w. reflexivity.
Qed.

Lemma allowed_findById k : preserves R (AccountModel.findById k).
Proof.
  apply preserves_dbCall; [apply _|apply allows_tick|]. intros w. reflexivity.
Qed.

Lemma allowed_find f : preserves R (TransactionModel.find f).
Proof.
  apply preserves_dbCall; [apply _|apply allows_tick|]. intros w. reflexivity.
Qed.

Lemma allowed_findOneAndUpdate k expected st :
  preserves R (TransactionModel.findOneAndUpdate k expected st).
Proof.
  apply preserves_dbCall; [apply _|apply allows_tick|]. intros w.
  destruct (transactions w !! k) as [tx|] eqn:E; [|reflexivity].
  destruct (decide (state tx = expected)); [|reflexivity].
  by apply allows_setState.
Qed.

Lemma allowed_Transaction_updateOne k st :
  preserves R (TransactionModel.updateOne k st).
Proof.
  apply preserves_dbCall; [apply _|apply allows_tick|]. intros w.
  destruct (transactions w !! k) as [tx|] eqn:E; [|reflexivity].
  by apply allows_setState.
Qed.

Lemma allowed_create src dst v : preserves R (TransactionModel.create src dst v).
Proof.
  apply preserves_dbCall; [apply _|apply allows_tick|]. intros w.
  apply allows_create.
Qed.

Lemma allowed_addToSet id t :
  preserves R (AccountModel.updateOne id (λ _, true) (addToSet t)).
Proof.
  apply preserves_dbCall; [apply _|apply allows_tick|]. intros w.
  apply allows_addToSet.
Qed.

Lemma allowed_pull id t :
  preserves R (AccountModel.updateOne id (λ _, true) (pull t)).
Proof.
  apply preserves_dbCall; [apply _|apply allows_tick|]. intros w.
  apply allows_pull.
Qed.

Lemma allowed_inc id cond d :
  preserves R (AccountModel.updateOne id cond (inc d)).
Proof.
  apply preserves_dbCall; [apply _|apply allows_tick|]. intros w.
  apply allows_inc.
Qed.

Ltac allowed_seq :=
  repeat first
    [ apply preserves_mret; apply _
    | apply preserves_throw; apply _
    | apply allowed_findOne | apply allowed_findById | apply allowed_find
    | apply allowed_findOneAndUpdate | apply allowed_Transaction_updateOne
    | apply allowed_create | apply allowed_addToSet | apply allowed_pull
    | apply allowed_inc
    | (apply preserves_bind; [apply _| |intros ?]) ].

Lemma allowed_startTransaction t : preserves R (startTransaction t).
Proof.
  unfold startTransaction.
  apply preserves_bind; [apply _|apply allowed_findOneAndUpdate|].
  intros [tx|]; allowed_seq.
Qed.

Lemma allowed_applyTransaction t : preserves R (applyTransaction t).
Proof.
  unfold applyTransaction.
  apply preserves_bind; [apply _|apply allowed_findOne|].
  intros [tx|]; [|allowed_seq].
  destruct (negb _); [allowed_seq|].
  apply preserves_bind; [apply _|apply allowed_inc|]. intros n.
  destruct (bool_decide (n = 0)); allowed_seq.
Qed.

Lemma allowed_completeTransaction t : preserves R (completeTransaction t).
Proof.
  unfold completeTransaction.
  apply preserves_bind; [apply _|apply allowed_findOne|].
  intros [tx|]; [|allowed_seq].
  destruct (negb _); allowed_seq.
Qed.

Lemma allowed_cancelTransaction t : preserves R (cancelTransaction t).
Proof.
  unfold cancelTransaction.
  apply preserves_bind; [apply _|apply allowed_findOne|].
  intros [tx|]; [|allowed_seq].
  apply preserves_bind; [apply _|apply allowed_Transaction_updateOne|]. intros _.
  apply preserves_bind; [apply _| |intros _; allowed_seq].
  destruct (bool_decide _); allowed_seq.
Qed.

Lemma allowed_runPhases t : preserves R (runPhases t).
Proof.
  unfold runPhases.
  apply preserves_bind; [apply _|apply allowed_startTransaction|]. intros _.
  apply preserves_bind; [apply _|apply allowed_applyTransaction|]. intros _.
  apply preserves_bind; [apply _|apply allowed_completeTransaction|]. intros _.
  apply preserves_mret; apply _.
Qed.

Lemma allowed_rollback {A} label t e : preserves R (rollback (A := A) label t e).
Proof.
  unfold rollback.
  apply preserves_bind; [apply _| |intros _; apply preserves_throw; apply _].
  apply preserves_tryCatch; [apply _| |].
  - apply preserves_bind; [apply _|apply allowed_cancelTransaction|]. intros _.
    apply preserves_mret; apply _.
  - intros e' w r w' [= _ <-]. apply allows_console.
Qed.

Lemma allowed_executeTransfer s d a : preserves R (executeTransfer s d a).
Proof.
  unfold executeTransfer.
  destruct s as [s|], d as [d|], a as [a|]; try (apply preserves_throw; apply _).
  destruct (bool_decide (a = 0)); [apply preserves_throw; apply _|].
  destruct (bool_decide (a ≤ 0)); [apply preserves_throw; apply _|].
  destruct (bool_decide (s = d)); [apply preserves_throw; apply _|].
  apply preserves_bind; [apply _|apply allowed_create|]. intros tr.
  apply preserves_tryCatch; [apply _| |intros e; apply allowed_rollback].
  apply preserves_bind; [apply _|apply allowed_runPhases|]. intros _.
  apply preserves_mret; apply _.
Qed.

Lemma allowed_executeExistingTransaction t :
  preserves R (executeExistingTransaction t).
Proof.
  unfold executeExistingTransaction.
  apply preserves_tryCatch; [apply _| |intros e; apply allowed_rollback].
  apply preserves_bind; [apply _|apply allowed_runPhases|]. intros _.
  apply preserves_mret; apply _.
Qed.

Lemma allowed_recoverLoop l : ∀ acc, preserves R (recoverLoop l acc).
Proof.
  induction l as [|d l IH]; intros acc; cbn [recoverLoop].
  - apply preserves_mret; apply _.
  - apply preserves_bind; [apply _| |intros r; apply IH].
    apply preserves_tryCatch; [apply _| |intros e; apply preserves_mret; apply _].
    apply preserves_bind; [apply _|apply allowed_cancelTransaction|]. intros _.
    apply preserves_mret; apply _.
Qed.

Lemma allowed_recoverStuckTransactions tm :
  preserves R (recoverStuckTransactions tm).
Proof.
  unfold recoverStuckTransactions.
  apply preserves_bind; [apply _| |intros now].
  { intros w r w' [= _ <-]. reflexivity. }
  apply preserves_bind; [apply _|apply allowed_find|]. intros l.
  apply preserves_bind; [apply _|apply allowed_recoverLoop|]. intros res.
  apply preserves_mret; apply _.
Qed.

Lemma allowed_getAccountBalance id : preserves R (getAccountBalance id).
Proof.
  unfold getAccountBalance.
  apply preserves_bind; [apply _|apply allowed_findById|].
  intros [a|]; [|apply preserves_throw; apply _].
  apply preserves_bind; [apply _|apply allowed_find|]. intros l.
  destruct (sumPending _ _ _). apply preserves_mret; apply _.
Qed.

Lemma allowed_afterCall c w : R w (afterCall c w).
Proof.
  destruct c; cbn [afterCall].
  - by eapply allowed_startTransaction, surjective_pairing.
  - by eapply allowed_applyTransaction, surjective_pairing.
  - by eapply allowed_completeTransaction, surjective_pairing.
  - by eapply allowed_cancelTransaction, surjective_pairing.
  - by eapply allowed_executeTransfer, surjective_pairing.
  - by eapply allowed_executeExistingTransaction, surjective_pairing.
  - by eapply allowed_recoverStuckTransactions, surjective_pairing.
  - by eapply allowed_getAccountBalance, surjective_pairing.
Qed.

Lemma allowed_afterCalls cs : ∀ w, R w (afterCalls cs w).
Proof.
  induction cs as [|c cs IH]; intros w; cbn [afterCalls foldl].
  - reflexivity.
  - transitivity (afterCall c w); [apply allowed_afterCall | apply IH].
Qed.

End EveryCall.

Lemma updateAccount_is_Some id cond upd (m : gmap positive Account) k :
  is_Some (updateAccount id cond upd m !! k) ↔ is_Some (m !! k).
Proof.
  rewrite lookup_updateAccount. case_decide as Hk; [|done].
  subst k. by rewrite fmap_is_Some.
Qed.

Global Instance keepsRecords_preorder : PreOrder keepsRecords.
Proof.
  split.
  - intros w. split; [by eauto|]. intros k tx Hk. by exists tx.
  - intros w1 w2 w3 [Ha1 Ht1] [Ha2 Ht2]. split.
    + intros k a Hk. destruct (Ha1 k a Hk) as [a' Hk']. by eapply Ha2.
    + intros k tx Hk.
      destruct (Ht1 k tx Hk) as (tx1 & Hk1 & Hs1 & Hd1 & Hv1).
      destruct (Ht2 k tx1 Hk1) as (tx2 & Hk2 & Hs2 & Hd2 & Hv2).
      exists tx2. repeat split; congruence.
Qed.

Lemma keepsRecords_accounts w (m : gmap positive Account) :
  (∀ k, is_Some (accounts w !! k) → is_Some (m !! k)) →
  keepsRecords w (setAccounts m w).
Proof.
  intros H. split; world_simpl.
  - intros k a Hk. apply H. by exists a.
  - intros k tx Hk. by exists tx.
Qed.

Global Instance keepsRecords_allows : AllowsWrites keepsRecords.
Proof.
  split.
  - apply _.
  - intros w. split; world_simpl; [by eauto|]. intros k tx Hk. by exists tx.
  - intros l w. split; world_simpl; [by eauto|]. intros k tx Hk. by exists tx.
  - intros id t w. apply keepsRecords_accounts.
    intros k. by rewrite updateAccount_is_Some.
  - intros id t w. apply keepsRecords_accounts.
    intros k. by rewrite updateAccount_is_Some.
  - intros id cond d w. apply keepsRecords_accounts.
    intros k. by rewrite updateAccount_is_Some.
  - intros t tx st w Ht. split; world_simpl; [by eauto|].
    intros k tx' Hk. destruct (decide (k = t)) as [->|Hne].
    + rewrite Ht in Hk. injection Hk as <-.
      rewrite lookup_insert_eq. by eexists.
    + rewrite lookup_insert_ne by done. by exists tx'.
  - intros src dst v w. split; world_simpl; [by eauto|].
    intros k tx Hk.
    assert (k ≠ fresh (dom (transactions w))) as Hne.
    { intros ->. apply (is_fresh (dom (transactions w))).
      apply elem_of_dom. by exists tx. }
    rewrite lookup_insert_ne by done. by exists tx.
Qed.

(** X1: whatever sequence of calls of the exported functions is made, and
    whichever store calls fail, a transaction document that exists is still
    there afterwards with the same source, destination and value, and an
    account document that exists is still there. *)
Theorem records_are_kept (cs : list Call) w :
  (∀ k tx, transactions w !! k = Some tx →
     ∃ tx', transactions (afterCalls cs w) !! k = Some tx'
            ∧ source tx' = source tx ∧ destination tx' = destination tx
            ∧ value tx' = value tx)
  ∧ (∀ k a, accounts w !! k = Some a →
       is_Some (accounts (afterCalls cs w) !! k)).
Proof.
  destruct (allowed_afterCalls keepsRecords cs w) as [Ha Ht]. by split.
Qed.

Global Instance keepsDistinct_preorder : PreOrder keepsDistinct.
Proof.
  split.
  - intros w H. exact H.
  - intros w1 w2 w3 H12 H23 H. apply H23, H12, H.
Qed.

Lemma NoDup_addToSet t a :
  NoDup (pendingTransactions a) → NoDup (pendingTransactions (addToSet t a)).
Proof.
  intros H. unfold addToSet; simpl. case_bool_decide as Hin; [done|].
  apply NoDup_app. split; [done|]. split; [|apply NoDup_singleton].
  intros x Hx ->%list_elem_of_singleton. done.
Qed.

Lemma NoDup_pull t a :
  NoDup (pendingTransactions a) → NoDup (pendingTransactions (pull t a)).
Proof.
  intros H. unfold pull; simpl.
  induction H as [|x l Hx Hl IH]; simpl; [constructor|].
  destruct (bool_decide (x = t)); simpl; [done|].
  apply NoDup_cons. split; [|done].
  rewrite list_elem_of_In, filter_In, <- list_elem_of_In. tauto.
Qed.

Lemma keepsDistinct_accounts id cond upd w :
  (∀ a, NoDup (pendingTransactions a) → NoDup (pendingTransactions (upd a))) →
  keepsDistinct w (setAccounts (updateAccount id cond upd (accounts w)) w).
Proof.
  intros Hupd H k a. world_simpl. rewrite lookup_updateAccount.
  case_decide as Hk; [|apply H].
  subst k. destruct (accounts w !! id) as [a0|] eqn:E; [|done].
  simpl. intros [= <-].
  destruct (cond a0); [apply Hupd|]; by eapply H.
Qed.

Global Instance keepsDistinct_allows : AllowsWrites keepsDistinct.
Proof.
  split.
  - apply _.
  - intros w H. exact H.
  - intros l w H. exact H.
  - intros id t w. apply keepsDistinct_accounts, NoDup_addToSet.
  - intros id t w. apply keepsDistinct_accounts, NoDup_pull.
  - intros id cond d w. by apply keepsDistinct_accounts.
  - intros t tx st w _ H. exact H.
  - intros src dst v w H. exact H.
Qed.

(** X2: when every pending list is free of duplicates, it still is after any
    sequence of calls of the exported functions, whichever store calls
    fail. *)
Theorem pending_lists_stay_distinct (cs : list Call) w :
  pendingListsDistinct w → pendingListsDistinct (afterCalls cs w).
Proof. apply (allowed_afterCalls keepsDistinct). Qed.

Lemma pending_lists_stay_distinct_witness :
  pendingListsDistinct
    (afterCalls [CallExecuteTransfer (Some 1%positive) (Some 2%positive) (Some 40);
                 CallStartTransaction 7%positive;
                 CallStartTransaction 7%positive;
                 CallCancelTransaction 7%positive] wInitial).
Proof.
  apply pending_lists_stay_distinct.
  intros k a Hk.
  destruct (decide (k = 1%positive)) as [->|H1].
  { injection Hk as <-. constructor. }
  destruct (decide (k = 2%positive)) as [->|H2].
  { injection Hk as <-. constructor. }
  exfalso. unfold wInitial in Hk. cbn [accounts] in Hk.
  rewrite lookup_insert_ne, lookup_singleton_ne in Hk by done. discriminate.
Defined.

Lemma records_are_kept_witness :
  ∃ tx',
    transactions
      (afterCalls [CallCancelTransaction 7%positive;
                   CallExecuteExistingTransaction 7%positive;
                   CallRecoverStuckTransactions None] wDone) !! 7%positive
    = Some tx'
    ∧ source tx' = 1%positive ∧ destination tx' = 2%positive ∧ value tx' = 500.
Proof.
  destruct (records_are_kept
              [CallCancelTransaction 7%positive;
               CallExecuteExistingTransaction 7%positive;
               CallRecoverStuckTransactions None] wDone) as [H _].
  exact (H 7%positive (mkTransaction 1%positive 2%positive 500 done 1000) eq_refl).
Defined.

(** ** What a transfer may touch *)

Global Instance accFrame_preorder S : PreOrder (accFrame S).
Proof.
  split.
  - intros w k _. reflexivity.
  - intros w1 w2 w3 H12 H23 k Hk. rewrite H23, H12 by done. reflexivity.
Qed.

Lemma accFrame_accounts_same S w w' :
  accounts w' = accounts w → accFrame S w w'.
Proof. intros H k _. by rewrite H. Qed.

Lemma accFrame_findOne S k : preserves (accFrame S) (TransactionModel.findOne k).
Proof. apply preserves_dbCall; [apply _|..]; intros w j _; reflexivity. Qed.

Lemma accFrame_findOneAndUpdate S k expected st :
  preserves (accFrame S) (TransactionModel.findOneAndUpdate k expected st).
Proof.
  apply preserves_dbCall; [apply _|..]; intros w j _; [reflexivity|].
  destruct (transactions w !! k) as [tx|]; [|reflexivity].
  destruct (decide _); reflexivity.
Qed.

Lemma accFrame_Transaction_updateOne S k st :
  preserves (accFrame S) (TransactionModel.updateOne k st).
Proof.
  apply preserves_dbCall; [apply _|..]; intros w j _; [reflexivity|].
  destruct (transactions w !! k) as [tx|]; reflexivity.
Qed.

Lemma accFrame_Account_updateOne (S : ObjectId → Prop) id cond upd :
  S id → preserves (accFrame S) (AccountModel.updateOne id cond upd).
Proof.
  intros Hid. apply preserves_dbCall; [apply _|..]; intros w j Hj; [reflexivity|].
  world_simpl. rewrite lookup_updateAccount, decide_False; [done|].
  intros ->. done.
Qed.

Lemma txFrame_findOneAndUpdate t expected st :
  preserves (txFrame t) (TransactionModel.findOneAndUpdate t expected st).
Proof.
  apply preserves_dbCall; [apply _|..]; intros w j Hj; [reflexivity|].
  destruct (transactions w !! t) as [tx|]; [|reflexivity].
  destruct (decide _); [|reflexivity].
  simpl. by rewrite lookup_insert_ne.
Qed.

(** A sequence of store calls on the document [t] and on accounts in [S]. *)
Ltac frame_seq :=
  repeat first
    [ apply preserves_mret; apply _
    | apply preserves_throw; apply _
    | apply txFrame_findOne | apply txFrame_findOneAndUpdate
    | apply txFrame_Transaction_updateOne | apply txFrame_Account_updateOne
    | apply accFrame_findOne | apply accFrame_findOneAndUpdate
    | apply accFrame_Transaction_updateOne
    | (apply accFrame_Account_updateOne; cbn [source destination setState]; auto; fail)
    | (apply preserves_bind; [apply _| |intros ?]) ].

Lemma startTransaction_frame t : preserves (txFrame t) (startTransaction t).
Proof.
  unfold startTransaction.
  apply preserves_bind; [apply _|apply txFrame_findOneAndUpdate|].
  intros [tx|]; frame_seq.
Qed.

Lemma applyTransaction_frame t : preserves (txFrame t) (applyTransaction t).
Proof.
  unfold applyTransaction.
  apply preserves_bind; [apply _|apply txFrame_findOne|].
  intros [tx|]; [|frame_seq].
  destruct (negb _); [frame_seq|].
  apply preserves_bind; [apply _|apply txFrame_Account_updateOne|]. intros n.
  destruct (bool_decide (n = 0)); frame_seq.
Qed.

Lemma completeTransaction_frame t : preserves (txFrame t) (completeTransaction t).
Proof.
  unfold completeTransaction.
  apply preserves_bind; [apply _|apply txFrame_findOne|].
  intros [tx|]; [|frame_seq].
  destruct (negb _); frame_seq.
Qed.

(** A phase changes no account but the two of the document it reads. *)
Lemma startTransaction_accFrame t tx w c w' :
  transactions w !! t = Some tx →
  startTransaction t w = (c, w') →
  accFrame (λ k, k = source tx ∨ k = destination tx) w w'.
Proof.
  intros Ht. unfold startTransaction. rewrite bind_run.
  destruct (TransactionModel.findOneAndUpdate t initial pending w)
    as [[r|e] w1] eqn:E1.
  - pose proof (accFrame_findOneAndUpdate (λ k, k = source tx ∨ k = destination tx) _ _ _ _ _ _ E1) as H1.
    apply findOneAndUpdate_Return_inv in E1.
    destruct r as [tx'|].
    + destruct E1 as (tx0 & Ht0 & _ & -> & _).
      rewrite Ht in Ht0. injection Ht0 as <-. intros H.
      etransitivity; [exact H1|]. revert H. generalize w1 c w'.
      change (preserves (accFrame (λ k, k = source tx ∨ k = destination tx))
                (AccountModel.updateOne (source (setState pending (clock w) tx))
                   (λ _, true) (addToSet t);;
                 AccountModel.updateOne (destination (setState pending (clock w) tx))
                   (λ _, true) (addToSet t);;
                 mret (setState pending (clock w) tx))).
      frame_seq.
    + intros [= _ <-]. exact H1.
  - intros [= _ <-]. by eapply accFrame_findOneAndUpdate.
Qed.

Lemma applyTransaction_accFrame t tx w c w' :
  transactions w !! t = Some tx →
  applyTransaction t w = (c, w') →
  accFrame (λ k, k = source tx ∨ k = destination tx) w w'.
Proof.
  intros Ht. unfold applyTransaction. rewrite bind_run.
  destruct (TransactionModel.findOne t w) as [[r|e] w1] eqn:E1.
  - pose proof (accFrame_findOne (λ k, k = source tx ∨ k = destination tx) _ _ _ _ E1) as H1.
    apply findOne_Return_inv in E1 as [-> _]. rewrite Ht.
    intros H. etransitivity; [exact H1|]. revert H. generalize w1 c w'.
    match goal with
    | |- ∀ w1 c w', ?body w1 = (c, w') → _ =>
        change (preserves (accFrame (λ k, k = source tx ∨ k = destination tx)) body)
    end.
    destruct (negb _); [frame_seq|].
    apply preserves_bind; [apply _|frame_seq|]. intros n.
    destruct (bool_decide (n = 0)); frame_seq.
  - intros [= _ <-]. by eapply accFrame_findOne.
Qed.

Lemma completeTransaction_accFrame t tx w c w' :
  transactions w !! t = Some tx →
  completeTransaction t w = (c, w') →
  accFrame (λ k, k = source tx ∨ k = destination tx) w w'.
Proof.
  intros Ht. unfold completeTransaction. rewrite bind_run.
  destruct (TransactionModel.findOne t w) as [[r|e] w1] eqn:E1.
  - pose proof (accFrame_findOne (λ k, k = source tx ∨ k = destination tx) _ _ _ _ E1) as H1.
    apply findOne_Return_inv in E1 as [-> _]. rewrite Ht.
    intros H. etransitivity; [exact H1|]. revert H. generalize w1 c w'.
    match goal with
    | |- ∀ w1 c w', ?body w1 = (c, w') → _ =>
        change (preserves (accFrame (λ k, k = source tx ∨ k = destination tx)) body)
    end.
    destruct (negb _); frame_seq.
  - intros [= _ <-]. by eapply accFrame_findOne.
Qed.

Lemma cancelTransaction_accFrame t tx w c w' :
  transactions w !! t = Some tx →
  cancelTransaction t w = (c, w') →
  accFrame (λ k, k = source tx ∨ k = destination tx) w w'.
Proof.
  intros Ht. unfold cancelTransaction. rewrite bind_run.
  destruct (TransactionModel.findOne t w) as [[r|e] w1] eqn:E1.
  - pose proof (accFrame_findOne (λ k, k = source tx ∨ k = destination tx) _ _ _ _ E1) as H1.
    apply findOne_Return_inv in E1 as [-> _]. rewrite Ht.
    intros H. etransitivity; [exact H1|]. revert H. generalize w1 c w'.
    match goal with
    | |- ∀ w1 c w', ?body w1 = (c, w') → _ =>
        change (preserves (accFrame (λ k, k = source tx ∨ k = destination tx)) body)
    end.
    apply preserves_bind; [apply _|frame_seq|]. intros _.
    apply preserves_bind; [apply _| |intros _; frame_seq].
    destruct (bool_decide _); frame_seq.
  - intros [= _ <-]. by eapply accFrame_findOne.
Qed.

Global Instance ownOnly_preorder t s d : PreOrder (ownOnly t s d).
Proof.
  split.
  - intros w. split; [reflexivity|]. intros H. split; [done|reflexivity].
  - intros w1 w2 w3 [Hf1 H1] [Hf2 H2]. split; [by transitivity w2|].
    intros Hp. destruct (H1 Hp) as [Hp2 Ha1]. destruct (H2 Hp2) as [Hp3 Ha2].
    split; [done|]. by transitivity w2.
Qed.

Lemma hasParties_kept t s d w w' :
  keepsRecords w w' → hasParties t s d w → hasParties t s d w'.
Proof.
  intros [_ Hk] (tx & Ht & <- & <-).
  destruct (Hk t tx Ht) as (tx' & Ht' & Hs & Hd & _). by exists tx'.
Qed.

(** Each phase on [t] keeps to the document [t] and its two accounts. *)
Lemma ownOnly_phase (f : ObjectId → Async Transaction) t s d :
  preserves (txFrame t) (f t) →
  preserves keepsRecords (f t) →
  (∀ tx w c w', transactions w !! t = Some tx → f t w = (c, w') →
     accFrame (λ k, k = source tx ∨ k = destination tx) w w') →
  preserves (ownOnly t s d) (f t).
Proof.
  intros Hframe Hkeeps Hacc w c w' H. split; [by eapply Hframe|].
  intros Hp. split; [eapply hasParties_kept; [by eapply Hkeeps|done]|].
  destruct Hp as (tx & Ht & <- & <-). by eapply Hacc.
Qed.

Lemma ownOnly_startTransaction t s d :
  preserves (ownOnly t s d) (startTransaction t).
Proof.
  apply ownOnly_phase;
    [apply startTransaction_frame
    |apply (allowed_startTransaction keepsRecords)
    |apply startTransaction_accFrame].
Qed.

Lemma ownOnly_applyTransaction t s d :
  preserves (ownOnly t s d) (applyTransaction t).
Proof.
  apply ownOnly_phase;
    [apply applyTransaction_frame
    |apply (allowed_applyTransaction keepsRecords)
    |apply applyTransaction_accFrame].
Qed.

Lemma ownOnly_completeTransaction t s d :
  preserves (ownOnly t s d) (completeTransaction t).
Proof.
  apply ownOnly_phase;
    [apply completeTransaction_frame
    |apply (allowed_completeTransaction keepsRecords)
    |apply completeTransaction_accFrame].
Qed.

Lemma ownOnly_cancelTransaction t s d :
  preserves (ownOnly t s d) (cancelTransaction t).
Proof.
  apply ownOnly_phase;
    [apply cancelTransaction_frame
    |apply (allowed_cancelTransaction keepsRecords)
    |apply cancelTransaction_accFrame].
Qed.

(** The [try] and [catch] blocks of the two orchestrating functions. *)
Lemma ownOnly_orchestration t s d label (r : TransferResult) :
  preserves (ownOnly t s d)
    (tryCatch (runPhases t;; mret r) (rollback label t)).
Proof.
  apply preserves_tryCatch; [apply _| |].
  - apply preserves_bind; [apply _| |intros _; apply preserves_mret; apply _].
    unfold runPhases.
    apply preserves_bind; [apply _|apply ownOnly_startTransaction|]. intros _.
    apply preserves_bind; [apply _|apply ownOnly_applyTransaction|]. intros _.
    apply preserves_bind; [apply _|apply ownOnly_completeTransaction|]. intros _.
    apply preserves_mret; apply _.
  - intros e. unfold rollback.
    apply preserves_bind; [apply _| |intros _; apply preserves_throw; apply _].
    apply preserves_tryCatch; [apply _| |].
    + apply preserves_bind; [apply _|apply ownOnly_cancelTransaction|]. intros _.
      apply preserves_mret; apply _.
    + intros e' w c w' [= _ <-]. split; [by intros k _|].
      intros Hp. split; [done|]. by intros k _.
Qed.

(** X5: whatever its arguments, whether it returns or throws and whichever
    store calls fail, [executeTransfer] changes no transaction document but
    the one it creates and no account document but those of [sourceId] and
    [destId]. *)
Theorem executeTransfer_touches_only_its_own sourceId destId amount w :
  (∀ k, k ≠ fresh (dom (transactions w)) →
     transactions (executeTransfer sourceId destId amount w).2 !! k
     = transactions w !! k)
  ∧ (∀ k, sourceId ≠ Some k → destId ≠ Some k →
       accounts (executeTransfer sourceId destId amount w).2 !! k
       = accounts w !! k).
Proof.
  unfold executeTransfer.
  destruct sourceId as [s|], destId as [d|], amount as [a|]; try done.
  destruct (bool_decide (a = 0)); [done|].
  destruct (bool_decide (a ≤ 0)); [done|].
  destruct (bool_decide (s = d)); [done|].
  rewrite bind_run.
  destruct (TransactionModel.create s d a w) as [[tr|e] w1] eqn:Hc.
  - apply create_Return_inv in Hc as [-> ->]. cbn [fst snd].
    set (t := fresh (dom (transactions w))).
    pose proof (ownOnly_orchestration t s d "Transfer failed: "
                  (mkTransferResult true t "Transfer completed successfully"))
      as Hown.
    match goal with
    | |- context [ (tryCatch ?c ?h ?w1).2 ] =>
        destruct (tryCatch c h w1) as [c' w'] eqn:Hrun
    end.
    destruct (Hown _ _ _ Hrun) as [Hframe Hacc]. cbn [snd]. split.
    + intros k Hk. rewrite Hframe by done. world_simpl.
      by rewrite lookup_insert_ne.
    + intros k Hs Hd. destruct Hacc as [_ Hacc].
      * eexists. world_simpl. by rewrite lookup_insert_eq.
      * rewrite Hacc; [done|]. intros [->| ->]; done.
  - unfold TransactionModel.create in Hc.
    apply dbCall_Throw_inv in Hc as [_ ->]. done.
Qed.

Lemma executeTransfer_touches_only_its_own_witness :
  let w' :=
    (executeTransfer (Some 1%positive) (Some 2%positive) (Some 40) wSweep).2 in
  transactions w' !! 8%positive = transactions wSweep !! 8%positive
  ∧ accounts w' !! 3%positive = accounts wSweep !! 3%positive.
Proof.
  destruct (executeTransfer_touches_only_its_own
              (Some 1%positive) (Some 2%positive) (Some 40) wSweep) as [Ht Ha].
  split.
  - apply Ht. vm_compute. discriminate.
  - apply Ha; discriminate.
Defined.

(** ** Transfers and funds *)

Lemma accountsAfterPhases_is_Some t tx m k :
  is_Some (accountsAfterPhases t tx m !! k) ↔ is_Some (m !! k).
Proof.
  unfold accountsAfterPhases, unlockAccounts, moveFunds, lockAccounts.
  by rewrite !updateAccount_is_Some.
Qed.

(** X6: [executeTransfer] returns only when validation passed and the source
    document exists and holds at least the amount, whichever store calls
    fail; the source balance is then lower by exactly the amount, the
    destination balance, if there is a destination document, higher by it,
    and the transaction is [done]. *)
Theorem executeTransfer_returns_only_with_funds sourceId destId amount w r w' :
  executeTransfer sourceId destId amount w = (Return r, w') →
  ∃ s d a A,
    sourceId = Some s ∧ destId = Some d ∧ amount = Some a
    ∧ 0 < a ∧ s ≠ d
    ∧ accounts w !! s = Some A ∧ a ≤ balance A
    ∧ balanceOf w' s = Some (balance A - a)
    ∧ balanceOf w' d = (λ b, b + a) <$> balanceOf w d
    ∧ stateOf w' (transactionId r) = Some done.
Proof.
  intros H.
  apply executeTransfer_Return_inv in H
    as (s & d & a & tx0 & w1 & u & -> & -> & -> & Hpos & Hsd & -> & Hcr & Hrun).
  cbn [transactionId] in *.
  apply create_Return_inv in Hcr as [[= ->] ->]. cbn [fst snd] in Hrun.
  apply runPhases_Return in Hrun as (tx & Htx & _ & Hm & Hacc & Htxs & _).
  world_simpl. rewrite lookup_insert_eq in Htx. injection Htx as <-.
  set (t := fresh (dom (transactions w))) in *.
  set (tx := mkTransaction s d a initial (clock w)) in *.
  apply modifiedCount_debit_pos in Hm as (A' & HA' & _ & Hle & _).
  rewrite lookup_lockAccounts in HA'.
  rewrite (decide_True (P := _ ∨ _)) in HA' by (by left).
  destruct (accounts w !! source tx) as [A|] eqn:HA; [|done].
  injection HA' as <-. cbn in Hle.
  exists s, d, a, A. repeat split; try done.
  - unfold balanceOf. rewrite Hacc.
    by rewrite (accountsAfterPhases_source t tx _ Hsd A).
  - unfold balanceOf. rewrite Hacc.
    destruct (accounts w !! d) as [B|] eqn:HB.
    + by rewrite (accountsAfterPhases_destination t tx _ Hsd B).
    + destruct (accountsAfterPhases t tx (accounts w) !! d) as [B'|] eqn:HB';
        [|done].
      assert (is_Some (accounts w !! d)) as [? ?]; [|congruence].
      apply (accountsAfterPhases_is_Some t tx). by rewrite HB'.
  - unfold stateOf. by rewrite Htxs, lookup_insert_eq.
Qed.

Lemma executeTransfer_returns_only_with_funds_witness :
  ∃ A,
    accounts wBank !! 1%positive = Some A ∧ 500 ≤ balance A
    ∧ balanceOf
        (executeTransfer (Some 1%positive) (Some 5%positive) (Some 500) wBank).2
        1%positive = Some (balance A - 500).
Proof.
  destruct (executeTransfer_returns_only_with_funds
              (Some 1%positive) (Some 5%positive) (Some 500) wBank
              (mkTransferResult true 1%positive "Transfer completed successfully")
              (executeTransfer (Some 1%positive) (Some 5%positive) (Some 500) wBank).2)
    as (s & d & a & A & [= <-] & _ & [= <-] & _ & _ & HA & Hle & Hs & _).
  - vm_compute. reflexivity.
  - exists A. split; [exact HA|]. split; [exact Hle|exact Hs].
Defined.

(** X7: in a world where no store call fails and both account documents
    exist, [executeTransfer] leaves the sum of the two balances as it was,
    whatever the amount and whether it returns or throws. *)
Theorem executeTransfer_conserves s d amount A B w :
  calm w → accounts w !! s = Some A → accounts w !! d = Some B →
  ∃ A' B',
    accounts (executeTransfer (Some s) (Some d) amount w).2 !! s = Some A'
    ∧ accounts (executeTransfer (Some s) (Some d) amount w).2 !! d = Some B'
    ∧ balance A' + balance B' = balance A + balance B.
Proof.
  intros Hc HA HB.
  assert (∀ w', w' = w →
            ∃ A' B', accounts w' !! s = Some A' ∧ accounts w' !! d = Some B'
                     ∧ balance A' + balance B' = balance A + balance B) as Hsame.
  { intros w' ->. by exists A, B. }
  destruct amount as [a|]; [|by apply Hsame].
  destruct (decide (0 < a)) as [Hpos|Hneg].
  2:{ apply Hsame. unfold executeTransfer.
      case_bool_decide; [done|]. by rewrite bool_decide_eq_true_2 by lia. }
  destruct (decide (s = d)) as [->|Hsd].
  { apply Hsame. unfold executeTransfer.
    rewrite !bool_decide_eq_false_2 by lia.
    by rewrite bool_decide_eq_true_2. }
  set (t := fresh (dom (transactions w))).
  set (tx := mkTransaction s d a initial (clock w)).
  destruct (decide (a ≤ balance A)) as [Hle|Hgt].
  - rewrite executeTransfer_valid by done.
    rewrite create_calm by done. cbv beta iota. cbn [fst]. fold t tx.
    rewrite (runPhases_calm t tx);
      [|done|apply lookup_insert_eq|done
       |apply (debit_possible t tx (accounts w) A); simpl; (done || lia)].
    cbn [snd accounts].
    rewrite (accountsAfterPhases_source t tx _ Hsd A) by done.
    rewrite (accountsAfterPhases_destination t tx _ Hsd B) by done.
    eexists _, _. split; [done|]. split; [done|]. simpl. lia.
  - rewrite (executeTransfer_calm_refused s d a w) by
      (try done; apply (debit_refused t tx (accounts w) A); simpl; (done || lia)).
    cbn [snd accounts]. fold t tx.
    pose proof (balance_unlock_lock t tx (accounts w) s) as Hs.
    pose proof (balance_unlock_lock t tx (accounts w) d) as Hd.
    rewrite HA in Hs. rewrite HB in Hd.
    destruct (unlockAccounts t tx (lockAccounts t tx (accounts w)) !! s)
      as [A'|]; [|done].
    destruct (unlockAccounts t tx (lockAccounts t tx (accounts w)) !! d)
      as [B'|]; [|done].
    injection Hs as Hs. injection Hd as Hd.
    exists A', B'. split; [done|]. split; [done|]. lia.
Qed.

Lemma executeTransfer_conserves_witness :
  ∃ A' B',
    accounts (executeTransfer (Some 1%positive) (Some 2%positive) (Some 500) wBank).2
      !! 1%positive = Some A'
    ∧ accounts (executeTransfer (Some 1%positive) (Some 2%positive) (Some 500) wBank).2
        !! 2%positive = Some B'
    ∧ balance A' + balance B' = 2600.
Proof.
  apply (executeTransfer_conserves 1%positive 2%positive (Some 500)
           (mkAccount 2500 []) (mkAccount 100 []) wBank); reflexivity.
Defined.

(** ** A store failure between debit and credit *)

Lemma dbCall_next {A} (op : World → A * World) w fs :
  faults w = None :: fs →
  dbCall op w = (Return (op (setFaults fs w)).1, (op (setFaults fs w)).2).
Proof.
  intros H. unfold dbCall. rewrite H. cbn [head tail].
  destruct (op (setFaults fs w)); reflexivity.
Qed.

Lemma dbCall_fail {A} (op : World → A * World) w e fs :
  faults w = Some e :: fs → dbCall op w = (Throw e, setFaults fs w).
Proof. intros H. unfold dbCall. rewrite H. reflexivity. Qed.

(** One step of a run under a known schedule: a store call that runs. *)
Ltac next_step :=
  rewrite bind_run;
  unfold TransactionModel.findOne, TransactionModel.findOneAndUpdate,
    TransactionModel.updateOne, TransactionModel.create,
    AccountModel.updateOne;
  erewrite dbCall_next by (eassumption || reflexivity);
  cbv beta iota; world_simpl.

(** Reserve and Apply up to the credit, which fails. *)
Lemma runPhases_credit_fails t tx e w :
  faults w = [None; None; None; None; None; Some e] →
  transactions w !! t = Some tx → state tx = initial →
  modifiedCount (source tx) (debitCond t tx) (inc (- value tx))
    (lockAccounts t tx (accounts w)) ≠ 0 →
  runPhases t w =
  (Throw e,
   mkWorld
     (updateAccount (source tx) (debitCond t tx) (inc (- value tx))
        (lockAccounts t tx (accounts w)))
     (<[t := setState pending (clock w) tx]> (transactions w))
     (clock w) [] (console w)).
Proof.
  intros Hf Ht Hs Hm. unfold runPhases, startTransaction.
  rewrite bind_run. next_step.
  rewrite Ht, decide_True by done. cbv beta iota. world_simpl.
  do 2 next_step. rewrite mret_run. cbv beta iota.
  unfold applyTransaction. rewrite bind_run. next_step.
  rewrite lookup_insert_eq. cbn [state setState bool_decide decide_rel].
  rewrite bool_decide_eq_true_2 by done. cbn [negb].
  next_step. cbn [source destination value setState].
  fold (debitCond t tx). fold (lockAccounts t tx (accounts w)).
  rewrite bool_decide_eq_false_2 by done.
  rewrite bind_run. unfold AccountModel.updateOne.
  erewrite dbCall_fail by reflexivity. reflexivity.
Qed.

(** X8: a transfer between two existing accounts with sufficient funds, when
    the seventh store call, the credit of the destination, fails and every
    other call runs.  [executeTransfer] throws [TransferFailed] carrying the
    store's message and the transaction ends [canceled], unlocked on both
    accounts; the source has been debited and Cancel, which finds the
    transaction still [pending], does not give the amount back: the source
    balance is lower by the amount and the destination balance is as it
    was. *)
Theorem executeTransfer_credit_failure_keeps_debit s d amount A B e w :
  faults w = [None; None; None; None; None; None; Some e] →
  accounts w !! s = Some A → accounts w !! d = Some B →
  0 < amount → amount ≤ balance A → s ≠ d →
  ∃ m w',
    executeTransfer (Some s) (Some d) (Some amount) w = (Throw m, w')
    ∧ TransferFailed e m
    ∧ balanceOf w' s = Some (balance A - amount)
    ∧ balanceOf w' d = Some (balance B)
    ∧ stateOf w' (fresh (dom (transactions w))) = Some canceled
    ∧ (∃ P, pendingOf w' s = Some P ∧ fresh (dom (transactions w)) ∉ P)
    ∧ (∃ P, pendingOf w' d = Some P ∧ fresh (dom (transactions w)) ∉ P).
Proof.
  intros Hf HA HB Hpos Hle Hsd.
  set (t := fresh (dom (transactions w))).
  set (tx := mkTransaction s d amount initial (clock w)).
  rewrite executeTransfer_valid by done.
  unfold TransactionModel.create. erewrite dbCall_next by exact Hf.
  cbv beta iota. world_simpl. fold t tx.
  rewrite (runPhases_credit_fails t tx e);
    [|reflexivity|apply lookup_insert_eq|done
     |apply (debit_possible t tx (accounts w) A); simpl; (done || lia)].
  world_simpl.
  rewrite (afterRollback_calm t (setState pending (clock w) tx))
    by (done || apply lookup_insert_eq).
  world_simpl. eexists _, _. split; [reflexivity|]. split; [reflexivity|].
  unfold balanceOf, stateOf, pendingOf, cancelAccounts. world_simpl.
  cbn [state setState]. rewrite bool_decide_eq_false_2 by done.
  rewrite !lookup_unlockAccounts.
  rewrite !(decide_True (P := _ ∨ _)) by (cbn; auto).
  rewrite lookup_updateAccount, decide_True by done.
  rewrite lookup_updateAccount, decide_False by (cbn; congruence).
  rewrite (lockAccounts_source t tx _ A) by done.
  rewrite lookup_lockAccounts, (decide_True (P := _ ∨ _)) by (cbn; auto).
  rewrite HB, lookup_insert_eq. cbn [fmap option_fmap option_map].
  unfold debitCond.
  rewrite !bool_decide_eq_true_2;
    [|done|apply elem_of_addToSet; auto].
  cbn [andb].
  split; [done|]. split; [done|]. split; [done|].
  split; eexists; (split; [reflexivity|apply not_elem_of_pull]).
Qed.

Lemma executeTransfer_credit_failure_keeps_debit_witness :
  ∃ m w',
    executeTransfer (Some 1%positive) (Some 2%positive) (Some 500) wCreditFails
    = (Throw m, w')
    ∧ TransferFailed "socket closed" m
    ∧ balanceOf w' 1%positive = Some 2000
    ∧ balanceOf w' 2%positive = Some 100
    ∧ stateOf w' 1%positive = Some canceled.
Proof.
  destruct (executeTransfer_credit_failure_keeps_debit 1%positive 2%positive 500
              (mkAccount 2500 []) (mkAccount 100 []) "socket closed" wCreditFails)
    as (m & w' & Hrun & Hm & Hs & Hd & Hst & _);
    try reflexivity; try discriminate.
  exists m, w'. split; [exact Hrun|]. split; [exact Hm|].
  split; [exact Hs|]. split; [exact Hd|]. exact Hst.
Defined.

(** ** Running an existing transaction *)

Lemma executeExistingTransaction_run t w :
  executeExistingTransaction t w =
  match runPhases t w with
  | (Return _, w1) =>
      (Return (mkTransferResult true t "Transaction completed successfully"), w1)
  | (Throw e, w1) => (Throw ("Transaction failed: " +:+ e), afterRollback t w1)
  end.
Proof.
  unfold executeExistingTransaction, tryCatch. rewrite bind_run.
  destruct (runPhases t w) as [[u|e] w1]; [reflexivity|].
  apply rollback_run.
Qed.

(** X9: [executeExistingTransaction] on a transaction that is [initial],
    between two distinct existing accounts, with a value that is not zero and
    that the source covers, when no store call fails: it returns, the source
    balance is lower by the value, the destination balance higher by it, the
    transaction is [done] and its id is in neither pending list. *)
Theorem executeExistingTransaction_success t tx A B w :
  calm w → transactions w !! t = Some tx → state tx = initial →
  source tx ≠ destination tx →
  accounts w !! source tx = Some A → accounts w !! destination tx = Some B →
  value tx ≠ 0 → value tx ≤ balance A →
  ∃ w',
    executeExistingTransaction t w
    = (Return (mkTransferResult true t "Transaction completed successfully"), w')
    ∧ balanceOf w' (source tx) = Some (balance A - value tx)
    ∧ balanceOf w' (destination tx) = Some (balance B + value tx)
    ∧ stateOf w' t = Some done
    ∧ (∃ P, pendingOf w' (source tx) = Some P ∧ t ∉ P)
    ∧ (∃ P, pendingOf w' (destination tx) = Some P ∧ t ∉ P).
Proof.
  intros Hc Ht Hs Hsd HA HB Hv Hle.
  rewrite executeExistingTransaction_run.
  rewrite (runPhases_calm t tx);
    [|done|done|done|by apply (debit_possible t tx (accounts w) A)].
  eexists. split; [reflexivity|].
  unfold balanceOf, stateOf, pendingOf. world_simpl.
  rewrite (accountsAfterPhases_source t tx _ Hsd A) by done.
  rewrite (accountsAfterPhases_destination t tx _ Hsd B) by done.
  rewrite lookup_insert_eq.
  split; [simpl; f_equal; lia|]. split; [simpl; f_equal; lia|].
  split; [reflexivity|].
  split; eexists; (split; [reflexivity | apply not_elem_of_pull]).
Qed.

Lemma executeExistingTransaction_success_witness :
  ∃ w',
    executeExistingTransaction 7%positive wInitial
    = (Return (mkTransferResult true 7%positive
                 "Transaction completed successfully"), w')
    ∧ balanceOf w' 1%positive = Some 2000
    ∧ balanceOf w' 2%positive = Some 600
    ∧ stateOf w' 7%positive = Some done.
Proof.
  destruct (executeExistingTransaction_success 7%positive
              (mkTransaction 1%positive 2%positive 500 initial 1000)
              (mkAccount 2500 []) (mkAccount 100 []) wInitial)
    as (w' & Hrun & Hs & Hd & Hst & _); try reflexivity; try discriminate.
  exists w'. split; [exact Hrun|]. split; [exact Hs|]. split; [exact Hd|].
  exact Hst.
Defined.

(** X10: [executeExistingTransaction] on an id that matches no transaction
    document, when no store call fails: Reserve throws, Cancel throws in its
    turn and its error is not thrown on: it goes to [console.error], which is
    called once.  The call throws the error made from Reserve's, and no
    account and no transaction document is changed. *)
Theorem executeExistingTransaction_missing t w :
  calm w → transactions w !! t = None →
  ∃ w' logged,
    executeExistingTransaction t w
    = (Throw "Transaction failed: Transaction not found or already started", w')
    ∧ console w' = (console w ++ [logged])%list
    ∧ accounts w' = accounts w ∧ transactions w' = transactions w.
Proof.
  intros Hc Ht. rewrite executeExistingTransaction_run.
  unfold runPhases. rewrite bind_run.
  rewrite startTransaction_calm_conflict by (done || by rewrite Ht).
  unfold afterRollback. rewrite cancelTransaction_calm_missing by done.
  eexists _, _. split; [reflexivity|]. done.
Qed.

Lemma executeExistingTransaction_missing_witness :
  ∃ w' logged,
    executeExistingTransaction 3%positive wInitial
    = (Throw "Transaction failed: Transaction not found or already started", w')
    ∧ console w' = [logged]
    ∧ accounts w' = accounts wInitial
    ∧ transactions w' = transactions wInitial.
Proof.
  destruct (executeExistingTransaction_missing 3%positive wInitial)
    as (w' & logged & Hrun & Hcon & Hacc & Htxs); try reflexivity.
  exists w', logged. split; [exact Hrun|]. split; [exact Hcon|].
  split; [exact Hacc|exact Htxs].
Defined.

Lemma balance_reverseFunds tx m k :
  source tx ≠ destination tx →
  balance <$> reverseFunds tx m !! k
  = (λ b, if decide (k = source tx) then b + value tx
          else if decide (k = destination tx) then b - value tx
          else b) <$> (balance <$> m !! k).
Proof.
  intros Hsd. unfold reverseFunds. rewrite !lookup_updateAccount.
  destruct (decide (k = destination tx)) as [->|Hd].
  - rewrite decide_False by done.
    destruct (m !! destination tx); [|done]. simpl.
    rewrite decide_False by done. f_equal.
  - destruct (decide (k = source tx)) as [->|Hs]; [|by destruct (m !! k)].
    destruct (m !! source tx); [|done]. simpl. f_equal.
Qed.

(** X11: [executeExistingTransaction] on a transaction that exists and is not
    [initial], when no store call fails: Reserve throws and the [catch] block
    cancels the transaction.  The call throws, the transaction is [canceled]
    whatever its state was, and its id is in the pending list of neither of
    its accounts; the balances are as they were unless the transaction was
    [applied], in which case the source has the value back and the
    destination has given it back. *)
Theorem executeExistingTransaction_already_started t tx w :
  calm w → transactions w !! t = Some tx → state tx ≠ initial →
  ∃ w',
    executeExistingTransaction t w
    = (Throw "Transaction failed: Transaction not found or already started", w')
    ∧ stateOf w' t = Some canceled
    ∧ (∀ k a, accounts w' !! k = Some a →
         k = source tx ∨ k = destination tx → t ∉ pendingTransactions a)
    ∧ (state tx ≠ applied → ∀ k, balanceOf w' k = balanceOf w k)
    ∧ (state tx = applied → source tx ≠ destination tx →
       balanceOf w' (source tx) = (λ b, b + value tx) <$> balanceOf w (source tx)
       ∧ balanceOf w' (destination tx)
         = (λ b, b - value tx) <$> balanceOf w (destination tx)).
Proof.
  intros Hc Ht Hs. rewrite executeExistingTransaction_run.
  unfold runPhases. rewrite bind_run.
  rewrite startTransaction_calm_conflict
    by (done || (intros tx'; rewrite Ht; by intros [= <-])).
  rewrite (afterRollback_calm t tx) by done.
  eexists. split; [reflexivity|].
  unfold stateOf, balanceOf, cancelAccounts. world_simpl.
  split; [by rewrite lookup_insert_eq|]. split; [|split].
  - intros k a Hk Hparty. rewrite lookup_unlockAccounts, decide_True in Hk by done.
    destruct (_ !! k) as [a0|]; [|done]. injection Hk as <-.
    apply not_elem_of_pull.
  - intros Hna k. rewrite bool_decide_eq_false_2 by done.
    apply balance_unlockAccounts.
  - intros Happ Hsd. rewrite bool_decide_eq_true_2 by done.
    rewrite !balance_unlockAccounts, !balance_reverseFunds by done.
    split.
    + destruct (accounts w !! source tx); [|done]. simpl.
      by rewrite decide_True by done.
    + destruct (accounts w !! destination tx); [|done]. simpl.
      rewrite decide_False by done. by rewrite decide_True by done.
Qed.

Lemma executeExistingTransaction_already_started_witness :
  ∃ w',
    executeExistingTransaction 7%positive wReserved
    = (Throw "Transaction failed: Transaction not found or already started", w')
    ∧ stateOf w' 7%positive = Some canceled
    ∧ balanceOf w' 1%positive = Some 2500.
Proof.
  destruct (executeExistingTransaction_already_started 7%positive
              (mkTransaction 1%positive 2%positive 500 pending 1000) wReserved)
    as (w' & Hrun & Hst & _ & Hbal & _); try reflexivity; try discriminate.
  exists w'. split; [exact Hrun|]. split; [exact Hst|].
  rewrite Hbal by discriminate. reflexivity.
Defined.

(** ** Balances and locks *)

Global Instance sameBalances_preorder : PreOrder sameBalances.
Proof.
  split.
  - intros w k. reflexivity.
  - intros w1 w2 w3 H12 H23 k. by rewrite H23, H12.
Qed.

Lemma sameBalances_accounts_same w w' :
  accounts w' = accounts w → sameBalances w w'.
Proof. intros H k. unfold balanceOf. by rewrite H. Qed.

Lemma sameBalances_findOne k :
  preserves sameBalances (TransactionModel.findOne k).
Proof.
  apply preserves_dbCall; [apply _|..]; intros w;
    by apply sameBalances_accounts_same.
Qed.

Lemma sameBalances_findOneAndUpdate k expected st :
  preserves sameBalances (TransactionModel.findOneAndUpdate k expected st).
Proof.
  apply preserves_dbCall; [apply _|..]; intros w;
    apply sameBalances_accounts_same; [done|].
  destruct (transactions w !! k) as [tx|]; [|done]. by destruct (decide _).
Qed.

Lemma sameBalances_Transaction_updateOne k st :
  preserves sameBalances (TransactionModel.updateOne k st).
Proof.
  apply preserves_dbCall; [apply _|..]; intros w;
    apply sameBalances_accounts_same; [done|].
  by destruct (transactions w !! k).
Qed.

Lemma sameBalances_Account_updateOne id cond upd :
  (∀ a, balance (upd a) = balance a) →
  preserves sameBalances (AccountModel.updateOne id cond upd).
Proof.
  intros Hupd. apply preserves_dbCall; [apply _|..]; intros w k;
    [reflexivity|].
  unfold balanceOf. world_simpl. rewrite lookup_updateAccount.
  case_decide as Hk; [|done]. subst k.
  destruct (accounts w !! id) as [a|]; [|done]. simpl.
  destruct (cond a); [by rewrite Hupd|done].
Qed.

(** A sequence of store calls that writes no balance. *)
Ltac balance_seq :=
  repeat first
    [ apply preserves_mret; apply _
    | apply preserves_throw; apply _
    | apply sameBalances_findOne | apply sameBalances_findOneAndUpdate
    | apply sameBalances_Transaction_updateOne
    | (apply sameBalances_Account_updateOne; reflexivity)
    | (apply preserves_bind; [apply _| |intros ?]) ].

Lemma sameBalances_startTransaction t :
  preserves sameBalances (startTransaction t).
Proof.
  unfold startTransaction.
  apply preserves_bind; [apply _|apply sameBalances_findOneAndUpdate|].
  intros [tx|]; balance_seq.
Qed.

Lemma sameBalances_completeTransaction t :
  preserves sameBalances (completeTransaction t).
Proof.
  unfold completeTransaction.
  apply preserves_bind; [apply _|apply sameBalances_findOne|].
  intros [tx|]; [|balance_seq].
  destruct (negb _); balance_seq.
Qed.

(** X16: Reserve and Finalize never change a balance, whether they return or
    throw and whichever store calls fail. *)
Theorem reserve_and_finalize_keep_balances t w k :
  balanceOf (startTransaction t w).2 k = balanceOf w k
  ∧ balanceOf (completeTransaction t w).2 k = balanceOf w k.
Proof.
  split.
  - by eapply sameBalances_startTransaction, surjective_pairing.
  - by eapply sameBalances_completeTransaction, surjective_pairing.
Qed.

(** X12: Cancel on a transaction that is not [applied], or on an id that
    matches no transaction, never changes a balance, whether it returns or
    throws and whichever store calls fail. *)
Theorem cancel_unapplied_keeps_balances t w k :
  (∀ tx, transactions w !! t = Some tx → state tx ≠ applied) →
  balanceOf (cancelTransaction t w).2 k = balanceOf w k.
Proof.
  intros Hs. revert k. change (sameBalances w (cancelTransaction t w).2).
  destruct (cancelTransaction t w) as [c w'] eqn:H. cbn [snd].
  revert H. unfold cancelTransaction. rewrite bind_run.
  destruct (TransactionModel.findOne t w) as [[r|e] w1] eqn:E1.
  - pose proof (sameBalances_findOne _ _ _ _ E1) as H1.
    apply findOne_Return_inv in E1 as [-> _].
    destruct (transactions w !! t) as [tx|] eqn:Ht;
      [|intros [= _ <-]; exact H1].
    rewrite bool_decide_eq_false_2 by auto.
    intros H. etransitivity; [exact H1|]. revert H. generalize w1 c w'.
    match goal with
    | |- ∀ w1 c w', ?body w1 = (c, w') → _ =>
        change (preserves sameBalances body)
    end.
    balance_seq.
  - intros [= _ <-]. by eapply sameBalances_findOne.
Qed.

Lemma cancel_unapplied_keeps_balances_witness :
  balanceOf (cancelTransaction 10%positive wSweep).2 2%positive = Some 600.
Proof.
  rewrite (cancel_unapplied_keeps_balances 10%positive wSweep 2%positive).
  - reflexivity.
  - intros tx Htx.
    assert (tx = mkTransaction 2%positive 1%positive 70 pending 1000) as ->.
    { vm_compute in Htx. by injection Htx. }
    discriminate.
Defined.

Lemma pending_reverseFunds tx m k :
  pendingTransactions <$> reverseFunds tx m !! k = pendingTransactions <$> m !! k.
Proof.
  unfold reverseFunds. rewrite !lookup_updateAccount.
  destruct (decide (k = destination tx)) as [->|Hd].
  - destruct (decide (destination tx = source tx)) as [Heq|Hne].
    + rewrite Heq. by destruct (m !! source tx).
    + by destruct (m !! destination tx).
  - destruct (decide (k = source tx)) as [->|Hs]; [|done].
    by destruct (m !! source tx).
Qed.

Lemma pending_unlockAccounts t tx m k :
  pendingTransactions <$> unlockAccounts t tx m !! k
  = if decide (k = source tx ∨ k = destination tx)
    then without t <$> (pendingTransactions <$> m !! k)
    else pendingTransactions <$> m !! k.
Proof.
  rewrite lookup_unlockAccounts. case_decide; [|done]. by destruct (m !! k).
Qed.

(** X15: when Finalize or Cancel returns, whichever store calls failed before,
    the pending list of the source account and that of the destination
    account are what they were with every occurrence of the transaction id
    removed, and every other pending list is as it was. *)
Theorem release_removes_the_lock t w tx w' k :
  completeTransaction t w = (Return tx, w')
  ∨ cancelTransaction t w = (Return tx, w') →
  pendingOf w' k
  = if decide (k = source tx ∨ k = destination tx)
    then without t <$> pendingOf w k
    else pendingOf w k.
Proof.
  unfold pendingOf. intros [H|H].
  - apply completeTransaction_Return in H as (_ & _ & -> & _).
    apply pending_unlockAccounts.
  - apply cancelTransaction_Return in H as (_ & -> & _).
    unfold cancelAccounts. rewrite pending_unlockAccounts.
    destruct (bool_decide (state tx = applied)); [|done].
    by rewrite pending_reverseFunds.
Qed.

Lemma release_removes_the_lock_witness :
  pendingOf (cancelTransaction 7%positive wTwoLocks).2 1%positive
  = Some [9%positive].
Proof.
  rewrite (release_removes_the_lock 7%positive wTwoLocks
             (mkTransaction 1%positive 2%positive 500 pending 1000)
             (cancelTransaction 7%positive wTwoLocks).2 1%positive).
  - reflexivity.
  - right. vm_compute. reflexivity.
Defined.

Lemma without_addToSet t a :
  t ∉ pendingTransactions a → pull t (addToSet t a) = a.
Proof.
  intros Hnin. unfold pull, addToSet. cbn [balance pendingTransactions].
  rewrite bool_decide_eq_false_2 by done.
  destruct a as [b P]. cbn [balance pendingTransactions] in *. f_equal.
  rewrite List.filter_app. cbn [List.filter].
  rewrite bool_decide_eq_true_2 by done. cbn [negb]. rewrite app_nil_r.
  induction P as [|x P IH]; [done|]. cbn [List.filter].
  apply not_elem_of_cons in Hnin as [Hx HP].
  rewrite bool_decide_eq_false_2 by done. cbn [negb]. f_equal. by apply IH.
Qed.

(** X14: Reserve followed by Cancel, when no store call fails, on an
    [initial] transaction whose id is in no pending list of its accounts:
    both calls return, the transaction is [canceled], and every account
    document is exactly as it was before Reserve. *)
Theorem reserve_then_cancel_restores_accounts t tx w :
  calm w → transactions w !! t = Some tx → state tx = initial →
  (∀ k a, accounts w !! k = Some a → t ∉ pendingTransactions a) →
  ∃ r1 w1 r2 w2,
    startTransaction t w = (Return r1, w1)
    ∧ cancelTransaction t w1 = (Return r2, w2)
    ∧ accounts w2 = accounts w
    ∧ stateOf w2 t = Some canceled.
Proof.
  intros Hc Ht Hs Hfree.
  eexists _, _, _, _.
  split; [by apply (startTransaction_calm t tx)|].
  split; [by apply (cancelTransaction_calm t (setState pending (clock w) tx));
            [|apply lookup_insert_eq]|].
  world_simpl. split; [|unfold stateOf; world_simpl; by rewrite lookup_insert_eq].
  unfold cancelAccounts. cbn [state setState].
  rewrite bool_decide_eq_false_2 by done.
  apply map_eq. intros k.
  rewrite (unlockAccounts_ext t tx) by done.
  rewrite lookup_unlockAccounts, lookup_lockAccounts.
  case_decide; [|done].
  destruct (accounts w !! k) as [a|] eqn:Hk; [|done]. simpl.
  f_equal. apply without_addToSet. by eapply Hfree.
Qed.

Lemma reserve_then_cancel_restores_accounts_witness :
  ∃ r1 w1 r2 w2,
    startTransaction 7%positive wInitial = (Return r1, w1)
    ∧ cancelTransaction 7%positive w1 = (Return r2, w2)
    ∧ accounts w2 = accounts wInitial
    ∧ stateOf w2 7%positive = Some canceled.
Proof.
  apply (reserve_then_cancel_restores_accounts 7%positive
           (mkTransaction 1%positive 2%positive 500 initial 1000) wInitial);
    try reflexivity.
  intros k a Hk.
  destruct (decide (k = 1%positive)) as [->|H1].
  { injection Hk as <-. apply not_elem_of_nil. }
  destruct (decide (k = 2%positive)) as [->|H2].
  { injection Hk as <-. apply not_elem_of_nil. }
  exfalso. unfold wInitial in Hk. cbn [accounts] in Hk.
  rewrite lookup_insert_ne, lookup_singleton_ne in Hk by done. discriminate.
Defined.

(** X13: Cancel run a second time, when no store call fails, changes
    nothing that the first run left: the accounts are the same documents and
    the transaction is still [canceled]; in particular the balances of an
    [applied] transaction are reversed once, not twice. *)
Theorem cancel_twice_is_cancel_once t tx w :
  calm w → transactions w !! t = Some tx →
  ∃ r1 w1 r2 w2,
    cancelTransaction t w = (Return r1, w1)
    ∧ cancelTransaction t w1 = (Return r2, w2)
    ∧ accounts w2 = accounts w1
    ∧ stateOf w1 t = Some canceled ∧ stateOf w2 t = Some canceled.
Proof.
  intros Hc Ht.
  eexists _, _, _, _.
  split; [by apply (cancelTransaction_calm t tx)|].
  split; [by apply (cancelTransaction_calm t (setState canceled (clock w) tx));
            [|apply lookup_insert_eq]|].
  unfold stateOf. world_simpl. rewrite !lookup_insert_eq.
  split; [|done].
  unfold cancelAccounts at 1. cbn [state setState].
  rewrite bool_decide_eq_false_2 by done.
  rewrite (unlockAccounts_ext t tx) by done.
  apply map_eq. intros k. unfold cancelAccounts.
  rewrite !lookup_unlockAccounts. case_decide; [|done].
  destruct (_ !! k) as [a|]; [|done]. simpl. by rewrite pull_idem.
Qed.

Lemma cancel_twice_is_cancel_once_witness :
  ∃ r1 w1 r2 w2,
    cancelTransaction 7%positive wApplied = (Return r1, w1)
    ∧ cancelTransaction 7%positive w1 = (Return r2, w2)
    ∧ balanceOf w1 1%positive = Some 2500
    ∧ balanceOf w2 1%positive = Some 2500.
Proof.
  destruct (cancel_twice_is_cancel_once 7%positive
              (mkTransaction 1%positive 2%positive 500 applied 1000) wApplied)
    as (r1 & w1 & r2 & w2 & H1 & H2 & Hacc & _); try reflexivity.
  exists r1, w1, r2, w2. split; [exact H1|]. split; [exact H2|].
  assert (balanceOf w1 1%positive = Some 2500) as Hb.
  { transitivity (balanceOf (cancelTransaction 7%positive wApplied).2 1%positive).
    - by rewrite H1.
    - vm_compute. reflexivity. }
  split; [exact Hb|]. unfold balanceOf in *. by rewrite Hacc.
Defined.

(** ** What the sweep leaves behind *)

Lemma filter_none {A} (f : A → bool) (l : list A) :
  (∀ x, x ∈ l → f x = false) → List.filter f l = [].
Proof.
  induction l as [|x l IH]; [done|]. intros H. cbn [List.filter].
  rewrite (H x) by (by left). apply IH. intros y Hy. apply H. by right.
Qed.

(** X17: the sweep, when no store call fails, returns with no failure
    counted, and clears the backlog: no transaction that is [pending] or
    [applied] once it has returned was last modified before the cutoff, the
    time the sweep read when it started less the timeout. *)
Theorem recoverStuckTransactions_clears_the_backlog tm w :
  calm w →
  ∃ r w',
    recoverStuckTransactions tm w = (Return r, w')
    ∧ failed r = 0%nat
    ∧ ∀ t tx, transactions w' !! t = Some tx →
        state tx = pending ∨ state tx = applied →
        clock w - default 5 tm * 60 * 1000 ≤ lastModified tx.
Proof.
  intros Hc.
  set (cutoff := clock w - default 5 tm * 60 * 1000).
  assert (∃ r1 (l : list (positive * Transaction)) res,
            recoverStuckTransactions tm w = (Return r1, cancelEach l.*1 w)
            ∧ failed r1
              = length (List.filter (λ r, negb (detailSuccess r)) res)
            ∧ (∀ t, t ∈ l.*1 ↔ stuck cutoff w t)
            ∧ detailTransactionId <$> res = l.*1
            ∧ (∀ k, k ∉ l.*1 →
                 transactions (cancelEach l.*1 w) !! k = transactions w !! k)
            ∧ (∀ d, d ∈ res → detailSuccess d = true →
                 stateOf (cancelEach l.*1 w) (detailTransactionId d) = Some canceled)
            ∧ (∀ d, d ∈ res → detailSuccess d = true))
    as (r1 & l & res & Hrun & Hfailed & Hsel & Hids & Hfr & Hok & Hall).
  { unfold recoverStuckTransactions.
    rewrite bind_run. unfold Date_now. cbv beta iota. fold cutoff.
    rewrite bind_run, find_calm by done. cbv beta iota.
    set (l := List.filter _ (map_to_list (transactions w))).
    assert (NoDup l.*1) as Hnd
      by apply NoDup_fst_filter, NoDup_fst_map_to_list.
    destruct (recoverLoop_spec l Hnd [] w)
      as (res & Hrun & Hids & Hfr & Hok & Hall).
    assert (∀ t, t ∈ l.*1 ↔ stuck cutoff w t) as Hsel.
    { intros t. unfold l, stuck.
      rewrite (elem_of_found (λ _ tx, isStuck cutoff tx) (transactions w) t).
      split; intros (tx & Ht & H); exists tx; (split; [done|]);
        by apply isStuck_true. }
    destruct Hall as [_ Hall]; [done| |].
    { intros t (tx & Ht & _)%Hsel. by exists tx. }
    rewrite bind_run, Hrun. cbv beta iota. rewrite app_nil_l.
    eexists _, l, res. split; [reflexivity|]. cbn [failed]. done. }
  exists r1, (cancelEach l.*1 w). split; [exact Hrun|]. split.
  - rewrite Hfailed, filter_none; [reflexivity|].
    intros d Hd. by rewrite (Hall d Hd).
  - intros t tx Ht Hst.
    destruct (decide (t ∈ l.*1)) as [Hin|Hnin].
    + rewrite <- Hids in Hin.
      apply list_elem_of_fmap in Hin as (d & -> & Hd).
      specialize (Hok d Hd (Hall d Hd)). unfold stateOf in Hok.
      rewrite Ht in Hok. injection Hok as Hok.
      destruct Hst; congruence.
    + rewrite Hfr in Ht by done.
      destruct (decide (cutoff ≤ lastModified tx)) as [|Hold]; [done|].
      exfalso. apply Hnin, Hsel. exists tx. split; [done|]. split; [done|lia].
Qed.

Lemma recoverStuckTransactions_clears_the_backlog_witness :
  ∃ r w',
    recoverStuckTransactions None wStuck = (Return r, w')
    ∧ recovered r = 2%nat ∧ failed r = 0%nat
    ∧ stateOf w' 8%positive = Some canceled
    ∧ stateOf w' 10%positive = Some canceled
    ∧ stateOf w' 11%positive = Some pending
    ∧ ∀ t tx, transactions w' !! t = Some tx →
        state tx = pending ∨ state tx = applied → 700000 ≤ lastModified tx.
Proof.
  destruct (recoverStuckTransactions_clears_the_backlog None wStuck)
    as (r & w' & Hrun & Hfailed & Hleft).
  - reflexivity.
  - exists r, w'. split; [exact Hrun|].
    assert ((Return r, w') = recoverStuckTransactions None wStuck) as Hr
      by (by rewrite Hrun).
    vm_compute in Hr. injection Hr as -> ->.
    split; [reflexivity|]. split; [reflexivity|].
    split; [reflexivity|]. split; [reflexivity|]. split; [reflexivity|].
    exact Hleft.
Defined.

(** ** The balance projection as a read *)

Global Instance sameStore_preorder : PreOrder sameStore.
Proof.
  split.
  - by intros w.
  - intros w1 w2 w3 (Ha1 & Ht1 & Hc1) (Ha2 & Ht2 & Hc2).
    unfold sameStore. repeat split; congruence.
Qed.

Lemma sameStore_getAccountBalance id : preserves sameStore (getAccountBalance id).
Proof.
  unfold getAccountBalance.
  apply preserves_bind; [apply _| |].
  { apply preserves_dbCall; [apply _|..]; by intros w. }
  intros [a|]; [|apply preserves_throw; apply _].
  apply preserves_bind; [apply _| |].
  { apply preserves_dbCall; [apply _|..]; by intros w. }
  intros l. destruct (sumPending _ _ _). apply preserves_mret; apply _.
Qed.

(** X18: [getAccountBalance] only reads: whether it returns or throws and
    whichever store calls fail, the two collections and the console are as
    they were.  For an id that matches no account document it throws
    "Account not found" as soon as its first store call runs. *)
Theorem getAccountBalance_only_reads id w :
  accounts (getAccountBalance id w).2 = accounts w
  ∧ transactions (getAccountBalance id w).2 = transactions w
  ∧ console (getAccountBalance id w).2 = console w
  ∧ (nextCallRuns w → accounts w !! id = None →
     (getAccountBalance id w).1 = Throw "Account not found").
Proof.
  destruct (sameStore_getAccountBalance id w _ _ (surjective_pairing _))
    as (Ha & Ht & Hc).
  split; [done|]. split; [done|]. split; [done|].
  intros Hruns Hnone. unfold getAccountBalance. rewrite bind_run.
  unfold AccountModel.findById. rewrite dbCall_runs by done.
  world_simpl. by rewrite Hnone.
Qed.

Lemma getAccountBalance_only_reads_witness :
  (getAccountBalance 3%positive wSweep).1 = Throw "Account not found"
  ∧ accounts (getAccountBalance 3%positive wSweep).2 = accounts wSweep.
Proof.
  destruct (getAccountBalance_only_reads 3%positive wSweep)
    as (Ha & _ & _ & Hmiss).
  split; [|exact Ha]. apply Hmiss; [|reflexivity].
  intros e. vm_compute. discriminate.
Defined.

(** X19: for an existing account whose pending list is empty, or names only
    transactions that do not exist or are neither [pending] nor [applied],
    [getAccountBalance], when no store call fails, returns zero pending debit
    and credit, and the available and the projected balance are the
    balance. *)
Theorem getAccountBalance_nothing_in_flight id account w :
  calm w → accounts w !! id = Some account →
  (∀ t tx, t ∈ pendingTransactions account →
     transactions w !! t = Some tx → inFlight tx = false) →
  getAccountBalance id w
  = (Return (mkBalanceInfo id (balance account) 0 0
               (balance account) (balance account)), w).
Proof.
  intros Hc Ha Hnone. unfold getAccountBalance.
  calm_step. rewrite Ha. calm_step. fold inFlight.
  rewrite filter_none.
  - cbn [sumPending]. rewrite mret_run. do 2 f_equal.
    f_equal; lia.
  - intros [t tx] Hin. cbn [fst snd].
    apply elem_of_map_to_list in Hin.
    case_bool_decide as Ht; [|done]. cbn [andb]. by eapply Hnone.
Qed.

Lemma getAccountBalance_nothing_in_flight_witness :
  getAccountBalance 1%positive wDone
  = (Return (mkBalanceInfo 1%positive 2000 0 0 2000 2000), wDone).
Proof.
  apply (getAccountBalance_nothing_in_flight 1%positive (mkAccount 2000 []) wDone);
    try reflexivity.
  intros t tx Hin. by apply elem_of_nil in Hin.
Defined.

(** ** When Apply refuses *)

(** X20: Apply on a [pending] transaction of non-zero value, when no store
    call fails.  It returns exactly when the source account exists, holds the
    transaction in its pending list and covers the value; otherwise it throws
    the insufficient-balance error and leaves the world as it was, the
    transaction still [pending]. *)
Theorem applyTransaction_needs_lock_and_funds t tx w :
  calm w → transactions w !! t = Some tx → state tx = pending → value tx ≠ 0 →
  ((∃ A, accounts w !! source tx = Some A ∧ t ∈ pendingTransactions A
         ∧ value tx ≤ balance A)
   ∧ ∃ w', applyTransaction t w = (Return tx, w') ∧ stateOf w' t = Some applied)
  ∨ ((∀ A, accounts w !! source tx = Some A →
        t ∉ pendingTransactions A ∨ balance A < value tx)
     ∧ applyTransaction t w
       = (Throw "Insufficient balance or source account not found", w)).
Proof.
  intros Hc Ht Hs Hv.
  destruct (decide (modifiedCount (source tx) (debitCond t tx)
                      (inc (- value tx)) (accounts w) = 0)) as [Hm|Hm].
  - right. split; [|by apply (applyTransaction_calm_insufficient t tx)].
    intros A HA.
    destruct (decide (t ∈ pendingTransactions A)) as [Hin|]; [|by left].
    right. destruct (decide (balance A < value tx)) as [|Hge]; [done|].
    exfalso. assert (modifiedCount (source tx) (debitCond t tx)
                       (inc (- value tx)) (accounts w) ≠ 0) as Hne; [|done].
    apply modifiedCount_debit_pos. exists A. repeat split; (done || lia).
  - left. pose proof Hm as (A & HA & Hin & Hle & _)%modifiedCount_debit_pos.
    split; [by exists A|].
    eexists. split; [by apply (applyTransaction_calm t tx)|].
    unfold stateOf. world_simpl. by rewrite lookup_insert_eq.
Qed.

Lemma applyTransaction_needs_lock_and_funds_witness :
  applyTransaction 7%positive wHalfLocked
  = (Throw "Insufficient balance or source account not found", wHalfLocked).
Proof.
  destruct (applyTransaction_needs_lock_and_funds 7%positive
              (mkTransaction 1%positive 2%positive 500 pending 1000) wHalfLocked)
    as [[(A & HA & Hin & _) _]|[_ H]];
    [reflexivity|reflexivity|reflexivity|discriminate| |exact H].
  exfalso. injection HA as <-. by apply elem_of_nil in Hin.
Defined.

(** ** A Cancel that is interrupted *)

(** X22: Cancel on a [pending] transaction, when its second store call, the
    write of [canceling], runs and the third call fails: Cancel throws the
    store's message; the transaction is left [canceling], and no account
    document has changed, so the accounts still hold the lock. *)
Theorem cancelTransaction_interrupted t tx e fs w :
  faults w = None :: None :: Some e :: fs →
  transactions w !! t = Some tx → state tx = pending →
  ∃ w',
    cancelTransaction t w = (Throw e, w')
    ∧ stateOf w' t = Some canceling
    ∧ accounts w' = accounts w.
Proof.
  intros Hf Ht Hs. unfold cancelTransaction.
  next_step. rewrite Ht. next_step. rewrite Ht. cbv beta iota. world_simpl.
  rewrite bool_decide_eq_false_2 by (rewrite Hs; discriminate).
  rewrite bind_run, mret_run. cbv beta iota.
  rewrite bind_run. unfold AccountModel.updateOne.
  erewrite dbCall_fail by reflexivity.
  eexists. split; [reflexivity|].
  unfold stateOf. world_simpl. by rewrite lookup_insert_eq.
Qed.

Lemma cancelTransaction_interrupted_witness :
  ∃ w',
    cancelTransaction 7%positive wCancelFails = (Throw "timeout", w')
    ∧ stateOf w' 7%positive = Some canceling
    ∧ accounts w' = accounts wCancelFails.
Proof.
  apply (cancelTransaction_interrupted 7%positive
           (mkTransaction 1%positive 2%positive 500 pending 1000)
           "timeout" [] wCancelFails); reflexivity.
Defined.

(** X21: the sweep leaves alone every transaction that is neither [pending]
    nor [applied], whatever its age and whichever store calls fail; so a
    transaction left [canceling] by an interrupted Cancel is never picked up
    by it. *)
Theorem sweep_skips_what_is_not_in_flight tm w t tx :
  transactions w !! t = Some tx →
  state tx ≠ pending → state tx ≠ applied →
  transactions (recoverStuckTransactions tm w).2 !! t = Some tx.
Proof.
  intros Ht Hp Ha. unfold recoverStuckTransactions.
  rewrite bind_run. unfold Date_now. cbv beta iota.
  set (cutoff := clock w - default 5 tm * 60 * 1000).
  rewrite bind_run. unfold TransactionModel.find.
  match goal with
  | |- context [ dbCall ?op w ] => destruct (dbCall op w) as [c w1] eqn:E
  end.
  apply dbCall_inv in E as [(e & -> & ->)|(l & -> & [= <- <-])]; [done|].
  set (l := List.filter (λ d : positive * Transaction, isStuck cutoff d.2)
              (map_to_list (transactions w))).
  assert (NoDup l.*1) as Hnd
    by apply NoDup_fst_filter, NoDup_fst_map_to_list.
  destruct (recoverLoop_spec l Hnd [] (tick w)) as (res & Hrun & _ & Hfr & _).
  rewrite bind_run, Hrun. cbv beta iota. cbn [snd].
  rewrite Hfr; [done|]. unfold l.
  rewrite (elem_of_found (λ _ tx0, isStuck cutoff tx0)).
  intros (tx' & Ht' & [[Hs|Hs] _]%isStuck_true); world_simpl;
    rewrite Ht in Ht'; injection Ht' as <-; done.
Qed.

Lemma sweep_skips_what_is_not_in_flight_witness :
  transactions (recoverStuckTransactions (Some 0) wProjection).2 !! 9%positive
  = Some (mkTransaction 1%positive 2%positive 999 canceling 30).
Proof.
  apply (sweep_skips_what_is_not_in_flight (Some 0) wProjection 9%positive);
    [reflexivity|discriminate|discriminate].
Defined.

(** ** Which validation error *)

(** X24: the message of the validation error.  A missing [sourceId], [destId]
    or [amount], and also an amount of zero, give "sourceId, destId, and
    amount are required"; a negative amount gives "Amount must be positive";
    equal ids with a positive amount give "Source and destination accounts
    cannot be the same". *)
Theorem executeTransfer_validation_message sourceId destId amount w :
  ((sourceId = None ∨ destId = None ∨ amount = None ∨ amount = Some 0) →
   executeTransfer sourceId destId amount w
   = (Throw "sourceId, destId, and amount are required", w))
  ∧ (∀ s d a, sourceId = Some s → destId = Some d → amount = Some a → a < 0 →
       executeTransfer sourceId destId amount w
       = (Throw "Amount must be positive", w))
  ∧ (∀ s a, sourceId = Some s → destId = Some s → amount = Some a → 0 < a →
       executeTransfer sourceId destId amount w
       = (Throw "Source and destination accounts cannot be the same", w)).
Proof.
  unfold executeTransfer. split; [|split].
  - intros H. destruct sourceId as [s|], destId as [d|], amount as [a|];
      try done.
    destruct H as [?|[?|[?|[= ->]]]]; try discriminate.
    by rewrite bool_decide_eq_true_2.
  - intros s d a -> -> -> Ha.
    rewrite bool_decide_eq_false_2 by lia.
    by rewrite bool_decide_eq_true_2 by lia.
  - intros s a -> -> -> Ha.
    rewrite !bool_decide_eq_false_2 by lia.
    by rewrite bool_decide_eq_true_2.
Qed.

Lemma executeTransfer_validation_message_witness :
  executeTransfer (Some 1%positive) (Some 2%positive) (Some 0) wBank
  = (Throw "sourceId, destId, and amount are required", wBank).
Proof.
  apply (executeTransfer_validation_message
           (Some 1%positive) (Some 2%positive) (Some 0) wBank).
  right; right; right. reflexivity.
Defined.

(** ** A transfer always settles when the store does not fail *)

(** X25: [executeTransfer] with arguments that pass validation, when no store
    call fails, whether or not the two account documents exist: either it
    returns and the transaction it created is [done], or it throws and the
    transaction is [canceled]; no store failure is pending afterwards. *)
Theorem executeTransfer_settles s d amount w :
  calm w → 0 < amount → s ≠ d →
  ∃ c w',
    executeTransfer (Some s) (Some d) (Some amount) w = (c, w')
    ∧ calm w'
    ∧ ((∃ r, c = Return r ∧ stateOf w' (fresh (dom (transactions w))) = Some done)
       ∨ (∃ m, c = Throw m
               ∧ stateOf w' (fresh (dom (transactions w))) = Some canceled)).
Proof.
  intros Hc Hpos Hsd.
  set (t := fresh (dom (transactions w))).
  set (tx := mkTransaction s d amount initial (clock w)).
  destruct (decide (modifiedCount s (debitCond t tx) (inc (- amount))
                      (lockAccounts t tx (accounts w)) = 0)) as [Hm|Hm].
  - eexists _, _. split; [by apply executeTransfer_calm_refused|].
    split; [done|]. right. eexists. split; [reflexivity|].
    unfold stateOf. world_simpl. by rewrite lookup_insert_eq.
  - rewrite executeTransfer_valid by done.
    rewrite create_calm by done. cbv beta iota. cbn [fst]. fold t tx.
    rewrite (runPhases_calm t tx) by (done || apply lookup_insert_eq).
    eexists _, _. split; [reflexivity|]. split; [done|].
    left. eexists. split; [reflexivity|].
    unfold stateOf. world_simpl. by rewrite lookup_insert_eq.
Qed.

Lemma executeTransfer_settles_witness :
  ∃ c w',
    executeTransfer (Some 5%positive) (Some 2%positive) (Some 500) wBank = (c, w')
    ∧ calm w'
    ∧ ((∃ r, c = Return r ∧ stateOf w' 1%positive = Some done)
       ∨ (∃ m, c = Throw m ∧ stateOf w' 1%positive = Some canceled)).
Proof.
  apply (executeTransfer_settles 5%positive 2%positive 500 wBank);
    try reflexivity; discriminate.
Defined.

(** X23: [executeExistingTransaction] on a transaction document that exists,
    whether it returns or throws and whichever store calls fail, changes no
    other transaction document and no account document but those of the
    transaction's source and destination. *)
Theorem executeExistingTransaction_touches_only_its_own t tx w :
  transactions w !! t = Some tx →
  (∀ k, k ≠ t →
     transactions (executeExistingTransaction t w).2 !! k = transactions w !! k)
  ∧ (∀ k, k ≠ source tx → k ≠ destination tx →
       accounts (executeExistingTransaction t w).2 !! k = accounts w !! k).
Proof.
  intros Ht.
  destruct (ownOnly_orchestration t (source tx) (destination tx)
              "Transaction failed: "
              (mkTransferResult true t "Transaction completed successfully")
              w _ _ (surjective_pairing _)) as [Hframe Hacc].
  split; [exact Hframe|].
  intros k Hs Hd. destruct Hacc as [_ Hacc]; [by exists tx|].
  apply Hacc. intros [?|?]; done.
Qed.

Lemma executeExistingTransaction_touches_only_its_own_witness :
  transactions (executeExistingTransaction 10%positive wSweep).2 !! 8%positive
  = transactions wSweep !! 8%positive
  ∧ accounts (executeExistingTransaction 10%positive wSweep).2 !! 3%positive
    = accounts wSweep !! 3%positive.
Proof.
  destruct (executeExistingTransaction_touches_only_its_own 10%positive
              (mkTransaction 2%positive 1%positive 70 pending 1000) wSweep)
    as [Ht Ha]; [reflexivity|].
  split; [apply Ht; discriminate | apply Ha; discriminate].
Defined.
